(** * A shallow embedding of the multimodal RAG demonstration pipeline

    The repository is a linear Python script: load a document through the
    Unstructured partitioning service, set up a Jina embedding client and an
    in-memory Qdrant collection, insert the chunks, run one similarity search
    and ask GPT-4o for an answer.

    Every collaborator (document partitioning, embedding client, vector index,
    generation service, [os.urandom], [getpass], [load_dotenv]) is outside the
    repository.  The embedding therefore keeps the repository's own code
    executable and treats every collaborator as an oracle: a function from
    the history of requests issued so far and the current request to either
    a reply or a raised exception.  A theorem quantified over the oracle
    holds for every behaviour of the collaborators. *)

From Stdlib Require Import ZArith String Ascii List Lia DecimalString QArith_base.
From stdpp Require Import base option list gmap strings.

Local Open Scope string_scope.
Local Open Scope Z_scope.

(** ** Python exceptions *)

Module Py.

(** The part of the built-in exception hierarchy the pipeline can meet. *)
Inductive builtin_exn :=
| BaseException | SystemExit | KeyboardInterrupt | GeneratorExit
| Exception
| AttributeError | EOFError
| LookupError | IndexError | KeyError
| OSError | ConnectionError | TimeoutError
| RuntimeError | NotImplementedError
| TypeError
| ValueError | UnicodeError.

(** Direct base class of a built-in exception ([None] at the root). *)
Definition builtin_base (b : builtin_exn) : option builtin_exn :=
  match b with
  | BaseException => None
  | SystemExit | KeyboardInterrupt | GeneratorExit | Exception => Some BaseException
  | AttributeError | EOFError | LookupError | OSError
  | RuntimeError | TypeError | ValueError => Some Exception
  | IndexError | KeyError => Some LookupError
  | ConnectionError | TimeoutError => Some OSError
  | NotImplementedError => Some RuntimeError
  | UnicodeError => Some ValueError
  end.

(** Walk [fuel] steps up the hierarchy. *)
Fixpoint builtin_ancestors (fuel : nat) (b : builtin_exn) : list builtin_exn :=
  match fuel with
  | O => []
  | S fuel' =>
      match builtin_base b with
      | None => []
      | Some p => p :: builtin_ancestors fuel' p
      end
  end.

(** The hierarchy above is four levels deep. *)
Definition builtin_mro (b : builtin_exn) : list builtin_exn :=
  b :: builtin_ancestors 4 b.

(** An exception class: a built-in one, or a class a library derives
    (by single inheritance) from another exception class. *)
Inductive exn_class :=
| Builtin (b : builtin_exn)
| Derived (name : string) (parent : exn_class).

Coercion Builtin : builtin_exn >-> exn_class.

Fixpoint mro (c : exn_class) : list exn_class :=
  match c with
  | Builtin b => map Builtin (builtin_mro b)
  | Derived _ p => c :: mro p
  end.

#[global] Instance builtin_exn_eq_dec : EqDecision builtin_exn.
Proof. solve_decision. Defined.

#[global] Instance exn_class_eq_dec : EqDecision exn_class.
Proof. solve_decision. Defined.

(** [issubclass c d]: [d] occurs in the method resolution order of [c]. *)
Definition issubclass (c d : exn_class) : bool :=
  existsb (fun a => bool_decide (a = d)) (mro c).

(** A raised exception object: its class and [str(e)]. *)
Record exn := mkExn { exn_type : exn_class; exn_str : string }.

Definition isinstance (e : exn) (c : exn_class) : bool :=
  issubclass (exn_type e) c.

(** ** Python values *)

(** Scalar values, as they occur in chunk metadata and in replies.
    [SOther] stands for a value of any other type (a float, a nested
    dict of coordinates, ...), kept by its type name and its [str()]. *)
Inductive scalar :=
| SNone
| SBool (b : bool)
| SInt (z : Z)
| SStr (s : string)
| SOther (type_name shown : string).

(** [str(int)]: decimal digits, with a leading minus sign when negative. *)
Definition str_int (z : Z) : string := NilZero.string_of_int (Z.to_int z).

(** [str(v)], which is also what an f-string placeholder [{v}] renders. *)
Definition str (v : scalar) : string :=
  match v with
  | SNone => "None"
  | SBool true => "True"
  | SBool false => "False"
  | SInt z => str_int z
  | SStr s => s
  | SOther _ shown => shown
  end.

Definition type_name_of (v : scalar) : string :=
  match v with
  | SNone => "NoneType"
  | SBool _ => "bool"
  | SInt _ => "int"
  | SStr _ => "str"
  | SOther t _ => t
  end.

(** [repr(s)] of a string without quotes or escapes, as in [str(KeyError(s))]. *)
Definition repr_str (s : string) : string := "'" ++ s ++ "'".

(** A LangChain [Document]: text and a metadata dict. *)
Record Document := mkDocument {
  page_content : string;
  metadata : gmap string scalar
}.

(** An element of a Python list handed to the pipeline: a [Document],
    or some other value (a malformed entry). *)
Inductive pyobj :=
| PDoc (d : Document)
| PVal (v : scalar).

(** [d.get(key, default)] *)
Definition dict_get (d : gmap string scalar) (key : string) (dflt : scalar) : scalar :=
  default dflt (d !! key).

(** [sep.join(parts)] *)
Fixpoint join (sep : string) (parts : list string) : string :=
  match parts with
  | [] => ""
  | [p] => p
  | p :: rest => p ++ sep ++ join sep rest
  end.

End Py.

Export Py.

(** ** [uuid.uuid4] and [str(UUID)]

    CPython builds a version-4 UUID from sixteen bytes of [os.urandom],
    read as a big-endian 128-bit integer, by overwriting the two variant
    bits and the four version bits; [str] prints the integer as 32
    lower-case hexadecimal digits grouped 8-4-4-4-12. *)

Module Uuid.

(** [int &= ~(0xc000 << 48); int |= 0x8000 << 48;
     int &= ~(0xf000 << 64); int |= 4 << 76] *)
Definition uuid4_of_random (rnd : Z) : Z :=
  let i := rnd mod 2 ^ 128 in
  let i := Z.land i (Z.lnot (Z.shiftl 0xc000 48)) in
  let i := Z.lor i (Z.shiftl 0x8000 48) in
  let i := Z.land i (Z.lnot (Z.shiftl 0xf000 64)) in
  Z.lor i (Z.shiftl 4 76).

Definition hex_digit (d : Z) : ascii :=
  match d with
  | 0 => "0" | 1 => "1" | 2 => "2" | 3 => "3" | 4 => "4" | 5 => "5"
  | 6 => "6" | 7 => "7" | 8 => "8" | 9 => "9" | 10 => "a" | 11 => "b"
  | 12 => "c" | 13 => "d" | 14 => "e" | _ => "f"
  end%char.

(** The [n] lowest hexadecimal digits of [i], most significant first
    (['%032x' % i] is [hex_digits 32 i] for [0 <= i < 2^128]). *)
Fixpoint hex_digits (n : nat) (i : Z) : list ascii :=
  match n with
  | O => []
  | S n' => hex_digit ((i / 16 ^ Z.of_nat n') mod 16) :: hex_digits n' i
  end.

Definition dash : ascii := "-"%char.

(** ['%s-%s-%s-%s-%s' % (hex[:8], hex[8:12], hex[12:16], hex[16:20], hex[20:])] *)
Definition group_8_4_4_4_12 (hex : list ascii) : list ascii :=
  take 8 hex ++ dash :: take 4 (drop 8 hex) ++ dash :: take 4 (drop 12 hex)
    ++ dash :: take 4 (drop 16 hex) ++ dash :: drop 20 hex.

Definition str_uuid (i : Z) : string :=
  string_of_list_ascii (group_8_4_4_4_12 (hex_digits 32 i)).

(** Reading a printed UUID back: the value of a hexadecimal digit, of a
    digit string (most significant first), and the digits without the
    dashes. *)
Definition hex_digit_value (a : ascii) : Z :=
  match a with
  | "0" => 0 | "1" => 1 | "2" => 2 | "3" => 3 | "4" => 4 | "5" => 5
  | "6" => 6 | "7" => 7 | "8" => 8 | "9" => 9 | "a" => 10 | "b" => 11
  | "c" => 12 | "d" => 13 | "e" => 14 | _ => 15
  end%char.

Fixpoint hex_value (digits : list ascii) : Z :=
  match digits with
  | [] => 0
  | a :: rest => hex_digit_value a * 16 ^ Z.of_nat (length rest) + hex_value rest
  end.

Definition ungroup (s : list ascii) : list ascii :=
  take 8 s ++ take 4 (drop 9 s) ++ take 4 (drop 14 s)
    ++ take 4 (drop 19 s) ++ drop 24 s.

Definition parse_uuid (s : string) : Z :=
  hex_value (ungroup (list_ascii_of_string s)).

End Uuid.

Export Uuid.

(** ** The collaborators' interface *)

Module Outside.

Inductive Distance := COSINE | EUCLID | DOT | MANHATTAN.

(** [VectorParams(size=..., distance=...)] *)
Record VectorParams := mkVectorParams { size : Z; distance : Distance }.

(** Objects the pipeline constructs: each is the record of its
    constructor arguments; what the object does is the oracle's business. *)
Record UnstructuredLoader := mkUnstructuredLoader {
  file_path : string;
  strategy : string;
  partition_via_api : bool;
  coordinates : bool
}.

Record JinaEmbeddings := mkJinaEmbeddings {
  jina_api_key : string;
  model_name : string
}.

Record QdrantClient := mkQdrantClient { location : string }.

Record QdrantVectorStore := mkQdrantVectorStore {
  client : QdrantClient;
  collection_name : string;
  embedding : JinaEmbeddings
}.

(** One entry of the [messages] list of a chat completion request. *)
Record Message := mkMessage { role : string; content : string }.

(** The part of a chat completion reply the pipeline reads:
    [response.choices[i].message.content]. *)
Record ChatCompletionMessage := mkChatCompletionMessage { message_content : scalar }.
Record Choice := mkChoice { message : ChatCompletionMessage }.
Record ChatCompletion := mkChatCompletion { choices : list Choice }.

(** Every call that leaves the repository's code. *)
Inductive Request :=
| LoadDotenv
| Getpass (prompt : string)
| UnstructuredLoaderInit (loader : UnstructuredLoader)
| LoaderLoad (loader : UnstructuredLoader)
| JinaEmbeddingsInit (e : JinaEmbeddings)
| QdrantClientInit (c : QdrantClient)
| CreateCollection (c : QdrantClient) (name : string) (vectors_config : VectorParams)
| QdrantVectorStoreInit (vs : QdrantVectorStore)
| Urandom (nbytes : Z)
| AddDocuments (vs : QdrantVectorStore) (documents : list pyobj) (ids : list string)
| SimilaritySearch (vs : QdrantVectorStore) (query : string) (k : Z)
| ChatCompletionsCreate (model : string) (messages : list Message)
    (max_tokens : Z) (temperature : Q).  (* the decimal literal, as a fraction *)

(** What each call returns when it returns. [Urandom 16] returns its
    sixteen bytes as the integer they spell; [LoadDotenv] the bindings
    of the [.env] file; a constructor nothing beyond the object. *)
Definition Reply (r : Request) : Type :=
  match r with
  | LoadDotenv => list (string * string)
  | Getpass _ => string
  | UnstructuredLoaderInit _ => unit
  | LoaderLoad _ => list pyobj
  | JinaEmbeddingsInit _ => unit
  | QdrantClientInit _ => unit
  | CreateCollection _ _ _ => bool
  | QdrantVectorStoreInit _ => unit
  | Urandom _ => Z
  | AddDocuments _ _ _ => list string
  | SimilaritySearch _ _ _ => list pyobj
  | ChatCompletionsCreate _ _ _ _ => ChatCompletion
  end.

(** A Python call either returns a value or raises. *)
Inductive Outcome (A : Type) :=
| Ok (a : A)
| Raise (e : exn).
Arguments Ok {A} a.
Arguments Raise {A} e.

Definition raised {A} (o : Outcome A) : option exn :=
  match o with
  | Ok _ => None
  | Raise e => Some e
  end.

(** The value a call returned, if it returned. *)
Definition value {A} (o : Outcome A) : option A :=
  match o with
  | Ok a => Some a
  | Raise _ => None
  end.

(** The value a call returned, or [dflt] if it raised. *)
Definition returned {A} (dflt : A) (o : Outcome A) : A :=
  match o with
  | Ok a => a
  | Raise _ => dflt
  end.

(** A request as it happened: what was asked, and the exception it
    raised if it raised one. *)
Record Event := mkEvent { ev_req : Request; ev_exn : option exn }.

(** The collaborators: given what happened so far, the outcome of the
    next request. *)
Definition Oracle : Type := list Event -> forall r : Request, Outcome (Reply r).

End Outside.

Export Outside.

(** ** Process state and the effect monad *)

Module Effects.

Inductive Level := INFO | SUCCESS | ERROR.

(** A record emitted through loguru's [logger]. *)
Record LogRecord := mkLogRecord { level : Level; text : string }.

Record World := mkWorld {
  environ : gmap string string;        (* os.environ *)
  openai_api_key : option string;      (* openai.api_key *)
  log : list LogRecord;                (* what [logger] emitted, oldest first *)
  trace : list Event                   (* requests issued, oldest first *)
}.

Definition M (A : Type) : Type := World -> Outcome A * World.

Definition ret {A} (a : A) : M A := fun w => (Ok a, w).

Definition raise {A} (e : exn) : M A := fun w => (Raise e, w).

Definition bind {A B} (m : M A) (k : A -> M B) : M B :=
  fun w =>
    match m w with
    | (Ok a, w') => k a w'
    | (Raise e, w') => (Raise e, w')
    end.

Declare Scope py_scope.
Delimit Scope py_scope with py.
Notation "x <- m ;; k" := (bind m (fun x => k))
  (at level 100, m at next level, right associativity) : py_scope.
Notation "m ;;; k" := (bind m (fun _ => k))
  (at level 100, right associativity) : py_scope.
Local Open Scope py_scope.

(** [for x in l] collecting results, as a list comprehension does. *)
Fixpoint comprehension {A B} (f : A -> M B) (l : list A) : M (list B) :=
  match l with
  | [] => ret []
  | x :: rest =>
      y <- f x ;;
      ys <- comprehension f rest ;;
      ret (y :: ys)
  end.

(** An [except C as e: handler] clause. *)
Record Handler (A : Type) := mkHandler {
  catches : exn_class;
  handler : exn -> M A
}.
Arguments mkHandler {A} catches handler.
Arguments catches {A} h.
Arguments handler {A} h.

(** [try: body] followed by [except] clauses: the first clause whose
    class the exception is an instance of handles it; with no such
    clause the exception propagates. *)
Definition try_except {A} (body : M A) (clauses : list (Handler A)) : M A :=
  fun w =>
    match body w with
    | (Ok a, w') => (Ok a, w')
    | (Raise e, w') =>
        match List.find (fun h => isinstance e (catches h)) clauses with
        | Some h => handler h e w'
        | None => (Raise e, w')
        end
    end.

(** The world after one more log record, and after one more request. *)
Definition logged (rec : LogRecord) (w : World) : World :=
  mkWorld (environ w) (openai_api_key w) (log w ++ [rec]) (trace w).

Definition observed (ev : Event) (w : World) : World :=
  mkWorld (environ w) (openai_api_key w) (log w) (trace w ++ [ev]).

Definition emit (l : Level) (msg : string) : M unit :=
  fun w => (Ok tt, logged (mkLogRecord l msg) w).

Definition logger_info := emit INFO.
Definition logger_success := emit SUCCESS.
Definition logger_error := emit ERROR.

(** [os.environ[key]] *)
Definition environ_getitem (key : string) : M string :=
  fun w =>
    match environ w !! key with
    | Some v => (Ok v, w)
    | None => (Raise (mkExn KeyError (repr_str key)), w)
    end.

(** [key in os.environ] *)
Definition environ_contains (key : string) : M bool :=
  fun w => (Ok (bool_decide (is_Some (environ w !! key))), w).

(** [os.environ[key] = value] *)
Definition environ_setitem (key value : string) : M unit :=
  fun w =>
    (Ok tt, mkWorld (<[key := value]> (environ w)) (openai_api_key w)
                    (log w) (trace w)).

(** [openai.api_key = value] *)
Definition set_openai_api_key (value : string) : M unit :=
  fun w => (Ok tt, mkWorld (environ w) (Some value) (log w) (trace w)).

(** [l[0]] *)
Definition getitem0 {A} (l : list A) : M A :=
  match l with
  | x :: _ => ret x
  | [] => raise (mkExn IndexError "list index out of range")
  end.

Definition no_attribute (v : scalar) (attr : string) : exn :=
  mkExn AttributeError
        ("'" ++ type_name_of v ++ "' object has no attribute '" ++ attr ++ "'").

(** [o.metadata] *)
Definition getattr_metadata (o : pyobj) : M (gmap string scalar) :=
  match o with
  | PDoc d => ret (metadata d)
  | PVal v => raise (no_attribute v "metadata")
  end.

(** [o.page_content] *)
Definition getattr_page_content (o : pyobj) : M string :=
  match o with
  | PDoc d => ret (page_content d)
  | PVal v => raise (no_attribute v "page_content")
  end.

Section WithOracle.

Variable ext : Oracle.

(** Issue a request: the oracle answers from the history, and the
    request joins the history together with the exception it raised. *)
Definition call (r : Request) : M (Reply r) :=
  fun w =>
    let out := ext (trace w) r in
    (out, observed (mkEvent r (raised out)) w).

(** [uuid4()]: [UUID(bytes=os.urandom(16), version=4)] *)
Definition uuid4 : M Z :=
  rnd <- call (Urandom 16) ;;
  ret (uuid4_of_random rnd).

(** [load_dotenv()]: bindings of the [.env] file enter [os.environ]
    unless the variable is already set. *)
Definition setdefault_env (kv : string * string) : M unit :=
  present <- environ_contains (fst kv) ;;
  if present then ret tt else environ_setitem (fst kv) (snd kv).

Definition load_dotenv : M unit :=
  bindings <- call LoadDotenv ;;
  comprehension setdefault_env bindings ;;;
  ret tt.

End WithOracle.

End Effects.

Export Effects.

(** ** preprocess_docs.py *)

Module PreprocessDocs.

Local Open Scope py_scope.

Section WithOracle.

Variable ext : Oracle.

Definition load_docs (file_path : string) : M (list pyobj) :=
  let loader := mkUnstructuredLoader file_path "hi_res" true true in
  call ext (UnstructuredLoaderInit loader) ;;;
  doc <- call ext (LoaderLoad loader) ;;
  logger_success ("Document " ++ file_path ++ "sucessfully loaded.") ;;;
  ret doc.

Definition set_embeddings (doc : list pyobj) (collection_name : string)
  : M (QdrantVectorStore * list string) :=
  logger_info "Setting Jina Model." ;;;
  key <- environ_getitem "JINA_API_KEY" ;;
  let embeddings := mkJinaEmbeddings key "jina-embeddings-v2-base-en" in
  call ext (JinaEmbeddingsInit embeddings) ;;;

  logger_info "Creating collection and setting Client." ;;;
  let client := mkQdrantClient ":memory:" in
  call ext (QdrantClientInit client) ;;;
  call ext (CreateCollection client collection_name (mkVectorParams 768 COSINE)) ;;;

  logger_info "Setting Vector Store object." ;;;
  let vector_store := mkQdrantVectorStore client collection_name embeddings in
  call ext (QdrantVectorStoreInit vector_store) ;;;

  logger_info "Generating ids for the document content." ;;;
  uuids <- comprehension (fun _ : nat => u <- uuid4 ext ;; ret (str_uuid u))
                         (seq 0 (length doc)) ;;
  logger_success "Qdrant Embedding Environment set!" ;;;

  ret (vector_store, uuids).

Definition add_doc (vector_store : QdrantVectorStore) (doc : list pyobj)
  (ids : list string) : M scalar :=
  doc0 <- getitem0 doc ;;
  md <- getattr_metadata doc0 ;;
  let file_name := dict_get md "filename" SNone in
  try_except
    (call ext (AddDocuments vector_store doc ids) ;;;
     logger_success ("Document " ++ str file_name ++ " added to vector store") ;;;
     ret SNone)
    [ mkHandler (Builtin ValueError) (fun e =>
        logger_error ("There's an error while handling the document list: " ++ exn_str e) ;;;
        ret SNone);
      mkHandler (Builtin TypeError) (fun e =>
        logger_error ("Type error while handling document list: " ++ exn_str e) ;;;
        ret SNone);
      mkHandler (Builtin ConnectionError) (fun e =>
        logger_error ("Connection error while communicating with Vector Store: " ++ exn_str e) ;;;
        ret SNone);
      mkHandler (Builtin Exception) (fun e =>
        logger_error ("Unexpected error ocurred whhile adding document "
                        ++ str file_name ++ ": " ++ exn_str e) ;;;
        ret SNone) ].

End WithOracle.

End PreprocessDocs.

Export PreprocessDocs.

(** ** utils.py (the part the pipeline runs) *)

Module Utils.

Local Open Scope py_scope.

Section WithOracle.

Variable ext : Oracle.

Definition check_keys : M scalar :=
  has_unstructured <- environ_contains "UNSTRUCTURED_API_KEY" ;;
  (if negb has_unstructured then
     v <- call ext (Getpass "Enter you Unstructured API key:") ;;
     environ_setitem "UNSTRUCTURED_API_KEY" v
   else ret tt) ;;;
  has_openai <- environ_contains "OPENAI_API_KEY" ;;
  (if negb has_openai then
     v <- call ext (Getpass "Enter your OpenAI API key:") ;;
     environ_setitem "OPENAI_API_KEY" v
   else ret tt) ;;;
  ret SNone.

End WithOracle.

End Utils.

Export Utils.

(** ** multimodal_rag_jina.py *)

Module MultimodalRagJina.

Local Open Scope py_scope.

(** One element of the list comprehension that feeds the context:
    [f"Page {doc.metadata.get('page_number', 'Unknown')}: {doc.page_content}"] *)
Definition page_entry (doc : pyobj) : M string :=
  md <- getattr_metadata doc ;;
  let page_number := dict_get md "page_number" (SStr "Unknown") in
  text <- getattr_page_content doc ;;
  ret ("Page " ++ str page_number ++ ": " ++ text).

Definition newline : string := String (ascii_of_nat 10) "".

(** [context = "\n\n".join([... for doc in retrieved_docs])] *)
Definition build_context (retrieved_docs : list pyobj) : M string :=
  entries <- comprehension page_entry retrieved_docs ;;
  ret (join (newline ++ newline) entries).

Definition preamble : string :=
  "You are an AI assistant helping answer questions based on provided context. The context contains information extracted from multiple pages of a document. "
  ++ "Please use this context to provide a detailed and accurate response to the question." ++ newline ++ newline.

Definition build_prompt (context query : string) : string :=
  preamble
  ++ "Context: " ++ context ++ newline ++ newline
  ++ "Question: " ++ query ++ newline ++ newline
  ++ "Answer:".

Section WithOracle.

Variable ext : Oracle.

Definition generate_answer_with_gpt4 (query : string) (retrieved_docs : list pyobj)
  : M scalar :=
  context <- build_context retrieved_docs ;;
  let prompt := build_prompt context query in
  response <- call ext (ChatCompletionsCreate "gpt-4o"
                [ mkMessage "system" "You are a helpful assistant.";
                  mkMessage "user" prompt ]
                300 (Qmake 7 10)) ;;
  choice0 <- getitem0 (choices response) ;;
  ret (message_content (message choice0)).

Definition FILE_PATH : string := "./data/relatorio_b3_2023.pdf".
Definition query_model : string := "How many pages does the document have?".

(** The module body, top to bottom. *)
Definition main : M unit :=
  load_dotenv ext ;;;
  check_keys ext ;;;
  key <- environ_getitem "OPENAI_API_KEY" ;;
  set_openai_api_key key ;;;
  logger_info ("Loading document at " ++ FILE_PATH ++ ".") ;;;
  doc <- load_docs ext FILE_PATH ;;
  vs_uuids <- set_embeddings ext doc "qdrant_test" ;;
  let vector_store := fst vs_uuids in
  let uuids := snd vs_uuids in
  logger_info "Adding Documents to vector store." ;;;
  add_doc ext vector_store doc uuids ;;;
  results <- call ext (SimilaritySearch vector_store query_model 3) ;;
  answer <- generate_answer_with_gpt4 query_model results ;;
  logger_success ("Answer: " ++ str answer).

End WithOracle.

End MultimodalRagJina.

Export MultimodalRagJina.

(** ** Concrete collaborators and inputs, for running the pipeline *)

Module Scenario.

Definition chunk (text : string) (page : Z) : Document :=
  mkDocument text {[ "page_number" := SInt page; "filename" := SStr "relatorio_b3_2023.pdf" ]}.

Definition chunk_A : Document := chunk "Annual report" 1.
Definition chunk_B : Document := chunk "Balance sheet" 5.

Definition generated : ChatCompletion :=
  mkChatCompletion [ mkChoice (mkChatCompletionMessage (SStr "The document has 10 pages.")) ].

(** A reply of the right type for every request. *)
Definition plain_reply (r : Request) : Reply r :=
  match r return Reply r with
  | LoadDotenv => []
  | Getpass _ => "typed-in-key"
  | UnstructuredLoaderInit _ => tt
  | LoaderLoad _ => [PDoc chunk_A; PDoc chunk_B]
  | JinaEmbeddingsInit _ => tt
  | QdrantClientInit _ => tt
  | CreateCollection _ _ _ => true
  | QdrantVectorStoreInit _ => tt
  | Urandom _ => 0
  | AddDocuments _ _ ids => ids
  | SimilaritySearch _ _ _ => [PDoc chunk_B; PDoc chunk_A]
  | ChatCompletionsCreate _ _ _ _ => generated
  end.

(** Collaborators that always answer, with entropy that never varies. *)
Definition obliging : Oracle := fun _ r => Ok (plain_reply r).

(** As [obliging], but the entropy source counts the requests before it. *)
Definition counting : Oracle :=
  fun h r =>
    match r return Outcome (Reply r) with
    | Urandom _ => Ok (Z.of_nat (length h))
    | r' => Ok (plain_reply r')
    end.

(** As [obliging], but every insertion raises [e]. *)
Definition failing_insert (e : exn) : Oracle :=
  fun _ r =>
    match r return Outcome (Reply r) with
    | AddDocuments _ _ _ => Raise e
    | r' => Ok (plain_reply r')
    end.

(** As [obliging], but the generation call raises [e]. *)
Definition failing_generation (e : exn) : Oracle :=
  fun _ r =>
    match r return Outcome (Reply r) with
    | ChatCompletionsCreate _ _ _ _ => Raise e
    | r' => Ok (plain_reply r')
    end.

(** As [obliging], but the generation reply carries no choices. *)
Definition choiceless : Oracle :=
  fun _ r =>
    match r return Outcome (Reply r) with
    | ChatCompletionsCreate _ _ _ _ => Ok (mkChatCompletion [])
    | r' => Ok (plain_reply r')
    end.

(** As [obliging], but the partitioning service raises [e]. *)
Definition failing_load (e : exn) : Oracle :=
  fun _ r =>
    match r return Outcome (Reply r) with
    | LoaderLoad _ => Raise e
    | r' => Ok (plain_reply r')
    end.

(** As [obliging], but the document behind the path changes between
    two loads: the second partitioning returns other chunks. *)
Definition is_load (ev : Event) : bool :=
  match ev_req ev with
  | LoaderLoad _ => true
  | _ => false
  end.

Definition rewritten_file : Oracle :=
  fun h r =>
    match r return Outcome (Reply r) with
    | LoaderLoad _ =>
        if existsb is_load h then Ok [PDoc chunk_B] else Ok [PDoc chunk_A]
    | r' => Ok (plain_reply r')
    end.

(** A process about to start, with the three keys in the environment. *)
Definition fresh : World :=
  mkWorld {[ "JINA_API_KEY" := "jina-key";
             "UNSTRUCTURED_API_KEY" := "unstructured-key";
             "OPENAI_API_KEY" := "openai-key" ]}
          None [] [].

(** The same process without the embedding key. *)
Definition keyless : World :=
  mkWorld {[ "UNSTRUCTURED_API_KEY" := "unstructured-key";
             "OPENAI_API_KEY" := "openai-key" ]}
          None [] [].

Definition a_store : QdrantVectorStore :=
  mkQdrantVectorStore (mkQdrantClient ":memory:") "qdrant_test"
    (mkJinaEmbeddings "jina-key" "jina-embeddings-v2-base-en").

End Scenario.

(** ** What the specification says, in its own words *)

Module Spec.

Definition blank_line : string := newline ++ newline.

(** "each prefixed with [Page {page_number}: ] (using the literal string
    [Unknown] if page number metadata is absent)" *)
Definition page_label (d : Document) : string :=
  match metadata d !! "page_number" with
  | Some v => str v
  | None => "Unknown"
  end.

Definition labelled (d : Document) : string :=
  "Page " ++ page_label d ++ ": " ++ page_content d.

(** "concatenate the retrieved chunks' text, ..., joined by a blank line,
    preserving the retrieval-ranked order" *)
Definition context_of (ranked : list Document) : string :=
  String.concat blank_line (map labelled ranked).

(** "a two-message exchange (a fixed system role instruction ... plus
    the constructed user message)", "a fixed instructional preamble, the
    assembled context, and the literal query, followed by an [Answer:]
    cue", "bounded output length (300 tokens) and fixed sampling
    temperature (0.7)" *)
Definition system_message : Message :=
  mkMessage "system" "You are a helpful assistant.".

Definition user_message (context query : string) : Message :=
  mkMessage "user"
    (preamble ++ "Context: " ++ context ++ blank_line
       ++ "Question: " ++ query ++ blank_line ++ "Answer:").

Definition generation_request (context query : string) : Request :=
  ChatCompletionsCreate "gpt-4o"
    [ system_message; user_message context query ] 300 (Qmake 7 10).

(** "generate one fresh unique identifier per chunk": the requests
    [set_embeddings] has issued by the time it draws identifiers, and
    one successful draw of sixteen bytes of entropy. *)
Definition setup_events (key name : string) : list Event :=
  let embeddings := mkJinaEmbeddings key "jina-embeddings-v2-base-en" in
  let client := mkQdrantClient ":memory:" in
  [ mkEvent (JinaEmbeddingsInit embeddings) None;
    mkEvent (QdrantClientInit client) None;
    mkEvent (CreateCollection client name (mkVectorParams 768 COSINE)) None;
    mkEvent (QdrantVectorStoreInit (mkQdrantVectorStore client name embeddings)) None ].

Definition draw_event : Event := mkEvent (Urandom 16) None.

(** The identifier printed for one draw. *)
Definition identifier_of (rnd : Z) : string := str_uuid (uuid4_of_random rnd).

End Spec.

(** ** Properties of the requests a run issues *)

Module Traces.

(** [m] only appends to the trace, and the outcome and the appended
    events satisfy [Q], whatever the world it starts from. *)
Definition emits {A} (m : M A) (Q : Outcome A -> list Event -> Prop) : Prop :=
  forall w, exists evs,
    trace (snd (m w)) = (trace w ++ evs)%list /\ Q (fst (m w)) evs.

(** A property of the exception a run ended with and of its events
    that holds of silent runs and of a completed run followed by
    another run. *)
Record uniform (P : option exn -> list Event -> Prop) : Prop := mkUniform {
  uniform_nil : forall r, P r [];
  uniform_app : forall evs1 evs2 r, P None evs1 -> P r evs2 -> P r (evs1 ++ evs2)%list
}.

Definition emits_u {A} (m : M A) (P : option exn -> list Event -> Prop) : Prop :=
  emits m (fun out evs => P (raised out) evs).

Definition is_insertion (r : Request) : bool :=
  match r with
  | AddDocuments _ _ _ => true
  | _ => false
  end.

Definition is_create (r : Request) : bool :=
  match r with
  | CreateCollection _ _ _ => true
  | _ => false
  end.

(** The vector store a request is addressed to, for insertions and searches. *)
Definition targets (r : Request) : option QdrantVectorStore :=
  match r with
  | AddDocuments vs _ _ => Some vs
  | SimilaritySearch vs _ _ => Some vs
  | _ => None
  end.

(** "only insertion errors are swallowed; every other error is allowed
    to terminate the process": a request other than an insertion that
    raised is the last request, and the run ended with its exception. *)
Definition fatal_unless_insertion (r : option exn) (evs : list Event) : Prop :=
  forall pre ev post e,
    evs = (pre ++ ev :: post)%list ->
    ev_exn ev = Some e ->
    is_insertion (ev_req ev) = false ->
    post = [] /\ r = Some e.

#[global] Instance Distance_eq_dec : EqDecision Distance.
Proof. solve_decision. Defined.

#[global] Instance VectorParams_eq_dec : EqDecision VectorParams.
Proof. solve_decision. Defined.

#[global] Instance QdrantClient_eq_dec : EqDecision QdrantClient.
Proof. solve_decision. Defined.

(** "vector dimensionality fixed at collection-creation time (768) ...
    similarity metric fixed at creation (cosine)" *)
Definition dim768_cosine : VectorParams := mkVectorParams 768 COSINE.

(** A monitor for the collection a run works on: no collection yet, or
    the collection [name] of [c], created with [dim768_cosine]. *)
Inductive CollectionState :=
| NoCollection
| Created (c : QdrantClient) (name : string).

(** The monitor rejects ([None]) a creation with any other
    configuration, a second creation, and an insertion or search
    addressed to anything but the created collection. *)
Definition step (s : CollectionState) (ev : Event) : option CollectionState :=
  match ev_req ev with
  | CreateCollection c n cfg =>
      match s with
      | NoCollection =>
          if decide (cfg = dim768_cosine)
          then Some (match ev_exn ev with None => Created c n | Some _ => NoCollection end)
          else None
      | Created _ _ => None
      end
  | AddDocuments vs _ _ | SimilaritySearch vs _ _ =>
      match s with
      | Created c n =>
          if decide (client vs = c /\ collection_name vs = n) then Some s else None
      | NoCollection => None
      end
  | _ => Some s
  end.

Fixpoint monitor (s : CollectionState) (evs : list Event) : option CollectionState :=
  match evs with
  | [] => Some s
  | ev :: rest =>
      match step s ev with
      | Some s' => monitor s' rest
      | None => None
      end
  end.

(** Requests the monitor does not look at. *)
Definition inert (r : Request) : bool :=
  negb (is_create r) && bool_decide (targets r = None).

(** Events that leave the monitor in state [s]. *)
Definition stays (s : CollectionState) (_ : option exn) (evs : list Event) : Prop :=
  monitor s evs = Some s.

(** Events the monitor accepts from state [s]. *)
Definition accepted (s : CollectionState) {A} (_ : Outcome A) (evs : list Event) : Prop :=
  is_Some (monitor s evs).

End Traces.

Export Traces.

(** ** The order of the requests of a run of the script *)

Module Protocol.

(** How far a run has come, by the last request that returned. *)
Inductive Phase :=
| Start
| DotenvLoaded
| PromptedUnstructured
| PromptedOpenAI
| LoaderBuilt
| Loaded
| EmbeddingsBuilt
| ClientBuilt
| CollectionCreated
| StoreBuilt
| Inserted
| Searched
| Generated
| Stopped.

(** The phase a request leads to when it returns: a draw of entropy
    leaves the run where the construction of the store put it. *)
Definition reached (r : Request) : option Phase :=
  match r with
  | LoadDotenv => Some DotenvLoaded
  | Getpass prompt =>
      if String.eqb prompt "Enter you Unstructured API key:" then Some PromptedUnstructured
      else if String.eqb prompt "Enter your OpenAI API key:" then Some PromptedOpenAI
      else None
  | UnstructuredLoaderInit _ => Some LoaderBuilt
  | LoaderLoad _ => Some Loaded
  | JinaEmbeddingsInit _ => Some EmbeddingsBuilt
  | QdrantClientInit _ => Some ClientBuilt
  | CreateCollection _ _ _ => Some CollectionCreated
  | QdrantVectorStoreInit _ => Some StoreBuilt
  | Urandom _ => Some StoreBuilt
  | AddDocuments _ _ _ => Some Inserted
  | SimilaritySearch _ _ _ => Some Searched
  | ChatCompletionsCreate _ _ _ _ => Some Generated
  end.

(** The phases a request may be issued in: each stage directly after
    the one before it; the prompts are optional; entropy is drawn any
    number of times once the store is built. *)
Definition may_follow (s : Phase) (r : Request) : bool :=
  match reached r, r, s with
  | Some DotenvLoaded, _, Start => true
  | Some PromptedUnstructured, _, DotenvLoaded => true
  | Some PromptedOpenAI, _, (DotenvLoaded | PromptedUnstructured) => true
  | Some LoaderBuilt, _, (DotenvLoaded | PromptedUnstructured | PromptedOpenAI) => true
  | Some Loaded, _, LoaderBuilt => true
  | Some EmbeddingsBuilt, _, Loaded => true
  | Some ClientBuilt, _, EmbeddingsBuilt => true
  | Some CollectionCreated, _, ClientBuilt => true
  | Some StoreBuilt, QdrantVectorStoreInit _, CollectionCreated => true
  | Some StoreBuilt, Urandom _, StoreBuilt => true
  | Some Inserted, _, StoreBuilt => true
  | Some Searched, _, Inserted => true
  | Some Generated, _, Searched => true
  | _, _, _ => false
  end.

(** One event: a request that raised stops the run, unless it is the
    insertion, whose exception may have been caught. *)
Definition advance (s : Phase) (ev : Event) : option Phase :=
  if may_follow s (ev_req ev)
  then match ev_exn ev with
       | None => reached (ev_req ev)
       | Some _ => Some (if is_insertion (ev_req ev) then Inserted else Stopped)
       end
  else None.

Fixpoint conforms (s : Phase) (evs : list Event) : option Phase :=
  match evs with
  | [] => Some s
  | ev :: rest =>
      match advance s ev with
      | Some s' => conforms s' rest
      | None => None
      end
  end.

Definition conforming (s : Phase) {A} (_ : Outcome A) (evs : list Event) : Prop :=
  is_Some (conforms s evs).

(** The stage of a request in the pipeline, and the least stage a
    request can have that is issued in phase [s] or later. *)
Definition stage (r : Request) : nat :=
  match r with
  | LoadDotenv => 1
  | Getpass prompt =>
      if String.eqb prompt "Enter you Unstructured API key:" then 2
      else if String.eqb prompt "Enter your OpenAI API key:" then 3
      else 0
  | UnstructuredLoaderInit _ => 4
  | LoaderLoad _ => 5
  | JinaEmbeddingsInit _ => 6
  | QdrantClientInit _ => 7
  | CreateCollection _ _ _ => 8
  | QdrantVectorStoreInit _ => 9
  | Urandom _ => 10
  | AddDocuments _ _ _ => 11
  | SimilaritySearch _ _ _ => 12
  | ChatCompletionsCreate _ _ _ _ => 13
  end.

Definition least_stage_from (s : Phase) : nat :=
  match s with
  | Start => 1
  | DotenvLoaded => 2
  | PromptedUnstructured => 3
  | PromptedOpenAI => 4
  | LoaderBuilt => 5
  | Loaded => 6
  | EmbeddingsBuilt => 7
  | ClientBuilt => 8
  | CollectionCreated => 9
  | StoreBuilt => 10
  | Inserted => 12
  | Searched => 13
  | Generated => 14
  | Stopped => 14
  end.

(** "Precondition: [len(chunks) == len(identifiers)]": every insertion
    among the events carries as many identifiers as documents. *)
Definition ids_match_documents (_ : option exn) (evs : list Event) : Prop :=
  forall ev vs documents ids,
    ev ∈ evs -> ev_req ev = AddDocuments vs documents ids ->
    length ids = length documents.

Definition is_draw (r : Request) : bool :=
  match r with
  | Urandom _ => true
  | _ => false
  end.

(** A computation that issues no request. *)
Definition silent {A} (m : M A) : Prop :=
  forall w, trace (snd (m w)) = trace w.

End Protocol.

Export Protocol.

(** ** Runs from a world that satisfies a precondition *)

Module Hoare.






Definition loaded (evs : list Event) : Prop :=
  exists loader, mkEvent (LoaderLoad loader) None ∈ evs.



End Hoare.

Export Hoare.

(** ** utils.py (the plotting helpers) *)

Module Plot.

(** Python numbers (ints and floats) under the two operations the plot
    applies to them. Either may raise ([OverflowError] on a product,
    [ZeroDivisionError] on a quotient); what they compute is left to
    the instance. *)
Class Arith (num : Type) := {
  mul : num -> num -> Outcome num;
  truediv : num -> num -> Outcome num
}.

(** The part of a chunk's metadata dict that the plotting code reads:
    a key that is absent is [None]; a key that is present holds a value
    of the type the code expects. *)
Record Coordinates (num : Type) := mkCoordinates {
  points : option (list (num * num));
  layout_width : option num;
  layout_height : option num
}.
Arguments mkCoordinates {num} points layout_width layout_height.
Arguments points {num} c.
Arguments layout_width {num} c.
Arguments layout_height {num} c.

(** Keys ["page_number"], ["coordinates"] and ["category"]. *)
Record Segment (num : Type) := mkSegment {
  seg_page_number : option Z;
  seg_coordinates : option (Coordinates num);
  seg_category : option string
}.
Arguments mkSegment {num} seg_page_number seg_coordinates seg_category.
Arguments seg_page_number {num} s.
Arguments seg_coordinates {num} s.
Arguments seg_category {num} s.

(** A document as [render_page] reads it: [doc.page_content] and
    [doc.metadata], the metadata keeping that structure. *)
Record Element (num : Type) := mkElement {
  element_text : string;
  element_metadata : Segment num
}.
Arguments mkElement {num} element_text element_metadata.
Arguments element_text {num} e.
Arguments element_metadata {num} e.

(** [fitz.open(path).load_page(index)] *)
Record Page := mkPage { page_file : string; page_index : Z }.

(** [page.get_pixmap()] *)
Record Pixmap (num : Type) := mkPixmap {
  width : num;
  height : num;
  samples : list Z
}.
Arguments mkPixmap {num} width height samples.
Arguments width {num} p.
Arguments height {num} p.
Arguments samples {num} p.

(** [Image.frombytes(mode, size, data)] *)
Record Image (num : Type) := mkImage {
  image_mode : string;
  image_size : num * num;
  image_data : list Z
}.
Arguments mkImage {num} image_mode image_size image_data.

(** [patches.Polygon(xy, linewidth=, edgecolor=, facecolor=)] *)
Record Polygon (num : Type) := mkPolygon {
  xy : list (num * num);
  linewidth : Z;
  edgecolor : string;
  facecolor : string
}.
Arguments mkPolygon {num} xy linewidth edgecolor facecolor.
Arguments xy {num} p.
Arguments linewidth {num} p.
Arguments edgecolor {num} p.
Arguments facecolor {num} p.

(** [patches.Patch(color=, label=)] *)
Record Patch := mkPatch { color : string; label : string }.

(** The calls into PyMuPDF, Pillow, matplotlib and [print]. *)
Inductive Call (num : Type) :=
| FitzOpen (path : string)
| LoadPage (path : string) (index : Z)
| GetPixmap (page : Page)
| ImageFrombytes (img : Image num)
| Subplots (nrows : Z) (figsize : Z * Z)
| Imshow (img : Image num)
| NewPolygon (p : Polygon num)
| AddPatch (p : Polygon num)
| NewPatch (p : Patch)
| Axis (arg : string)
| Legend (handles : list Patch) (loc : string)
| TightLayout
| PltShow
| PyPrint (s : string).
Arguments FitzOpen {num} path.
Arguments LoadPage {num} path index.
Arguments GetPixmap {num} page.
Arguments ImageFrombytes {num} img.
Arguments Subplots {num} nrows figsize.
Arguments Imshow {num} img.
Arguments NewPolygon {num} p.
Arguments AddPatch {num} p.
Arguments NewPatch {num} p.
Arguments Axis {num} arg.
Arguments Legend {num} handles loc.
Arguments TightLayout {num}.
Arguments PltShow {num}.
Arguments PyPrint {num} s.

(** Only the pixmap is read back; every other object is known by the
    arguments it was made from. *)
Definition Answer {num} (c : Call num) : Type :=
  match c with
  | GetPixmap _ => Pixmap num
  | _ => unit
  end.

(** A call as it happened, and the library: given the calls so far,
    the outcome of the next one. *)
Record Step (num : Type) := mkStep { the_call : Call num; the_exn : option exn }.
Arguments mkStep {num} the_call the_exn.
Arguments the_call {num} s.
Arguments the_exn {num} s.

Definition Library (num : Type) : Type :=
  list (Step num) -> forall c : Call num, Outcome (Answer c).

(** Computations that call the library: the history of calls is
    threaded through, an exception ends the computation. *)
Definition D (num A : Type) : Type := list (Step num) -> Outcome A * list (Step num).

Definition dret {num A} (a : A) : D num A := fun h => (Ok a, h).

Definition dlift {num A} (o : Outcome A) : D num A := fun h => (o, h).

Definition dbind {num A B} (m : D num A) (k : A -> D num B) : D num B :=
  fun h =>
    match m h with
    | (Ok a, h') => k a h'
    | (Raise e, h') => (Raise e, h')
    end.

Declare Scope plot_scope.
Delimit Scope plot_scope with plot.
Notation "x <- m ;; k" := (dbind m (fun x => k))
  (at level 100, m at next level, right associativity) : plot_scope.
Notation "m ;;; k" := (dbind m (fun _ => k))
  (at level 100, right associativity) : plot_scope.
Local Open Scope plot_scope.

Definition dcall {num} (lib : Library num) (c : Call num) : D num (Answer c) :=
  fun h =>
    let out := lib h c in
    (out, (h ++ [mkStep c (raised out)])%list).

(** [d[key]] on a dict whose entry under [key] is [v]. *)
Definition getitem {num A} (key : string) (v : option A) : D num A :=
  match v with
  | Some a => dret a
  | None => dlift (Raise (mkExn KeyError (repr_str key)))
  end.

(** [[f(x) for x in l]] *)
Fixpoint dcomprehension {num A B} (f : A -> D num B) (l : list A) : D num (list B) :=
  match l with
  | [] => dret []
  | x :: rest =>
      y <- f x ;;
      ys <- dcomprehension f rest ;;
      dret (y :: ys)
  end.

(** [for x in l: body], the body updating the loop's variables [s]. *)
Fixpoint for_each {num A S} (l : list A) (body : S -> A -> D num S) (s : S) : D num S :=
  match l with
  | [] => dret s
  | x :: rest =>
      s' <- body s x ;;
      for_each rest body s'
  end.

(** [d.get(key, dflt)] *)
Definition get {V} (d : gmap string V) (key : string) (dflt : V) : V :=
  default dflt (d !! key).

Definition category_to_color : gmap string string :=
  {[ "Title" := "orchid"; "Image" := "forestgreen"; "Table" := "tomato" ]}.

Section WithLibrary.

Context {num : Type} `{Arith num}.
Variable lib : Library num.

(** One element of [scaled_points]: the product is taken before the
    layout size is looked up, the quotient after. *)
Definition scaled_point (pix : Pixmap num) (segment : Segment num)
  (point : num * num) : D num (num * num) :=
  let x := fst point in
  let y := snd point in
  xw <- dlift (mul x (width pix)) ;;
  cx <- getitem "coordinates" (seg_coordinates segment) ;;
  lw <- getitem "layout_width" (layout_width cx) ;;
  sx <- dlift (truediv xw lw) ;;
  yh <- dlift (mul y (height pix)) ;;
  cy <- getitem "coordinates" (seg_coordinates segment) ;;
  lh <- getitem "layout_height" (layout_height cy) ;;
  sy <- dlift (truediv yh lh) ;;
  dret (sx, sy).

(** The body of [for segment in segments], on the set [categories]. *)
Definition draw_segment (pix : Pixmap num) (categories : gset string)
  (segment : Segment num) : D num (gset string) :=
  c <- getitem "coordinates" (seg_coordinates segment) ;;
  points <- getitem "points" (points c) ;;
  scaled_points <- dcomprehension (scaled_point pix segment) points ;;
  cat <- getitem "category" (seg_category segment) ;;
  let box_color := get category_to_color cat "deepskyblue" in
  cat' <- getitem "category" (seg_category segment) ;;
  let categories := categories ∪ {[ cat' ]} in
  let rect := mkPolygon scaled_points 1 box_color "none" in
  dcall lib (NewPolygon rect) ;;;
  dcall lib (AddPatch rect) ;;;
  dret categories.

(** The body of [for category in ["Title", "Image", "Table"]]. *)
Definition add_handle (categories : gset string) (legend_handles : list Patch)
  (seg_category : string) : D num (list Patch) :=
  if bool_decide (seg_category ∈ categories) then
    c <- getitem seg_category (category_to_color !! seg_category) ;;
    let handle := mkPatch c seg_category in
    dcall lib (NewPatch handle) ;;;
    dret (legend_handles ++ [handle])%list
  else dret legend_handles.

Definition plot_pdf_with_boxes (pdf_page : Page) (segments : list (Segment num))
  : D num unit :=
  pix <- dcall lib (GetPixmap pdf_page) ;;
  let pil_image := mkImage "RGB" (width pix, height pix) (samples pix) in
  dcall lib (ImageFrombytes pil_image) ;;;
  dcall lib (Subplots 1 (10, 10)) ;;;
  dcall lib (Imshow pil_image) ;;;
  categories <- for_each segments (draw_segment pix) ∅ ;;
  let text := mkPatch "deepskyblue" "Text" in
  dcall lib (NewPatch text) ;;;
  legend_handles <- for_each ["Title"; "Image"; "Table"] (add_handle categories) [text] ;;
  dcall lib (Axis "off") ;;;
  dcall lib (Legend legend_handles "upper right") ;;;
  dcall lib TightLayout ;;;
  dcall lib PltShow.

Definition render_page (file_path : string) (doc_list : list (Element num))
  (page_number : Z) (print_text : bool) : D num unit :=
  dcall lib (FitzOpen file_path) ;;;
  dcall lib (LoadPage file_path (page_number - 1)) ;;;
  let pdf_page := mkPage file_path (page_number - 1) in
  let page_docs :=
    List.filter
      (fun doc => bool_decide (seg_page_number (element_metadata doc) = Some page_number))
      doc_list in
  let segments := map element_metadata page_docs in
  plot_pdf_with_boxes pdf_page segments ;;;
  if print_text then
    for_each page_docs
      (fun _ doc => dcall lib (PyPrint (element_text doc ++ newline))) tt
  else dret tt.

End WithLibrary.

(** *** What a run of the plotting code leaves in the history *)

Section Observations.

Context {num : Type}.

(** Run from any history, [m] adds calls [evs] to it, and [Q] holds of
    its outcome and of [evs]. *)
Definition draws {A} (m : D num A)
  (Q : Outcome A -> list (Step num) -> Prop) : Prop :=
  forall h, exists evs, snd (m h) = (h ++ evs)%list /\ Q (fst (m h)) evs.

(** The polygons handed to [add_patch], and the strings handed to
    [print], oldest first. *)
Definition added (evs : list (Step num)) : list (Polygon num) :=
  omap (fun s => match the_call s with AddPatch p => Some p | _ => None end) evs.

Definition printed (evs : list (Step num)) : list string :=
  omap (fun s => match the_call s with PyPrint t => Some t | _ => None end) evs.

Definition none_raised (evs : list (Step num)) : Prop :=
  Forall (fun s => the_exn s = None) evs.

(** A computation that calls nothing and ends in [o]. *)
Definition quiet {A} (m : D num A) (o : Outcome A) : Prop :=
  forall h, m h = (o, h).

(** Where in the plotting code a call is made: opening the page (0),
    setting up the figure (1), drawing a box (2), the legend and the
    display (3), printing (4). *)
Definition phase (c : Call num) : nat :=
  match c with
  | FitzOpen _ | LoadPage _ _ => 0
  | GetPixmap _ | ImageFrombytes _ | Subplots _ _ | Imshow _ => 1
  | NewPolygon _ | AddPatch _ => 2
  | NewPatch _ | Axis _ | Legend _ _ | TightLayout | PltShow => 3
  | PyPrint _ => 4
  end.

Definition in_phase (n : nat) (evs : list (Step num)) : Prop :=
  Forall (fun s => phase (the_call s) = n) evs.

(** The calls made before the legend is requested. *)
Definition early (c : Call num) : bool :=
  match c with
  | GetPixmap _ | ImageFrombytes _ | Subplots _ _ | Imshow _
  | NewPolygon _ | AddPatch _ | NewPatch _ | Axis _ => true
  | _ => false
  end.

(** [poly] is the box of [segment]: the segment has its coordinates,
    its points and its category (and its layout size, if it has a
    point); the polygon has one vertex per point, a line of width 1 in
    the colour of the category, and no fill. *)
Definition drawn_as (segment : Segment num) (poly : Polygon num) : Prop :=
  exists c pts cat,
    seg_coordinates segment = Some c /\ points c = Some pts
    /\ seg_category segment = Some cat
    /\ (pts <> [] -> is_Some (layout_width c) /\ is_Some (layout_height c))
    /\ length (xy poly) = length pts
    /\ linewidth poly = 1
    /\ edgecolor poly = get category_to_color cat "deepskyblue"
    /\ facecolor poly = "none".

Definition complete (segment : Segment num) : Prop :=
  exists c pts cat,
    seg_coordinates segment = Some c /\ points c = Some pts
    /\ seg_category segment = Some cat
    /\ (pts <> [] -> is_Some (layout_width c) /\ is_Some (layout_height c)).

(** Some segment has category [cat]. *)
Definition occurs (cat : string) (segments : list (Segment num)) : bool :=
  existsb (fun s => bool_decide (seg_category s = Some cat)) segments.

Definition legend_of (segments : list (Segment num)) : list Patch :=
  ([mkPatch "deepskyblue" "Text"]
   ++ (if occurs "Title" segments then [mkPatch "orchid" "Title"] else [])
   ++ (if occurs "Image" segments then [mkPatch "forestgreen" "Image"] else [])
   ++ (if occurs "Table" segments then [mkPatch "tomato" "Table"] else []))%list.

(** The handles the legend loop builds from the set [categories]. *)
Definition handles_of (categories : gset string) : list Patch :=
  ([mkPatch "deepskyblue" "Text"]
   ++ (if bool_decide ("Title" ∈ categories) then [mkPatch "orchid" "Title"] else [])
   ++ (if bool_decide ("Image" ∈ categories) then [mkPatch "forestgreen" "Image"] else [])
   ++ (if bool_decide ("Table" ∈ categories) then [mkPatch "tomato" "Table"] else []))%list.

(** What a run of [plot_pdf_with_boxes] on [segments] leaves behind. *)
Definition pictured (segments : list (Segment num)) {A}
  (o : Outcome A) (evs : list (Step num)) : Prop :=
  Forall2 drawn_as (take (length (added evs)) segments) (added evs)
  /\ (forall handles loc x,
        mkStep (Legend handles loc) x ∈ evs ->
        handles = legend_of segments /\ loc = "upper right"
        /\ length (added evs) = length segments)
  /\ (forall x, mkStep PltShow x ∈ evs ->
        exists handles loc, mkStep (Legend handles loc) None ∈ evs)
  /\ (forall a, o = Ok a -> none_raised evs /\ mkStep PltShow None ∈ evs)
  /\ Forall (fun s => (1 <= phase (the_call s) <= 3)%nat) evs.

(** The documents of [doc_list] whose metadata gives page [page]. *)
Definition on_page (page : Z) (doc_list : list (Element num)) : list (Element num) :=
  List.filter (fun doc => bool_decide (seg_page_number (element_metadata doc) = Some page)) doc_list.

(** What [print] is handed for a document. *)
Definition shown_text (doc : Element num) : string := element_text doc ++ newline.

(** What a run of [render_page] leaves behind. *)
Definition rendered (file_path : string) (doc_list : list (Element num))
  (page : Z) (print_text : bool) {A} (o : Outcome A) (evs : list (Step num)) : Prop :=
  let page_docs := on_page page doc_list in
  Forall2 drawn_as (take (length (added evs)) (map element_metadata page_docs)) (added evs)
  /\ (forall handles loc x,
        mkStep (Legend handles loc) x ∈ evs ->
        handles = legend_of (map element_metadata page_docs)
        /\ length (added evs) = length page_docs)
  /\ (exists n, printed evs = take n (map shown_text page_docs))
  /\ (print_text = false -> printed evs = [])
  /\ (printed evs <> [] -> mkStep PltShow None ∈ evs)
  /\ (forall a, o = Ok a ->
        none_raised evs /\ mkStep PltShow None ∈ evs
        /\ printed evs = if print_text then map shown_text page_docs else [])
  /\ (forall s, s ∈ evs -> phase (the_call s) = 0%nat ->
        the_call s = FitzOpen file_path
        \/ the_call s = LoadPage file_path (page - 1)).

End Observations.

End Plot.

(** ** A page, three segments and a library that always answers *)

Module PlotScenario.

Import Plot.

(** Exact rational arithmetic, division by zero raising. *)
Definition ZeroDivisionError : exn_class :=
  Derived "ZeroDivisionError" (Derived "ArithmeticError" (Builtin Exception)).

#[global] Instance rational : Arith Q := {
  mul a b := Ok (Qmult a b);
  truediv a b :=
    if Qeq_bool b (Qmake 0 1)
    then Raise (mkExn ZeroDivisionError "division by zero")
    else Ok (Qdiv a b)
}.

Definition box (x0 y0 x1 y1 : Z) : list (Q * Q) :=
  [ (inject_Z x0, inject_Z y0); (inject_Z x0, inject_Z y1);
    (inject_Z x1, inject_Z y1); (inject_Z x1, inject_Z y0) ].

Definition layout (pts : list (Q * Q)) : Coordinates Q :=
  mkCoordinates (Some pts) (Some (inject_Z 1700)) (Some (inject_Z 2200)).

Definition heading : Segment Q :=
  mkSegment (Some 1) (Some (layout (box 100 100 900 160))) (Some "Title").

Definition paragraph : Segment Q :=
  mkSegment (Some 1) (Some (layout (box 100 200 1600 700))) (Some "NarrativeText").

Definition figures : Segment Q :=
  mkSegment (Some 2) (Some (layout (box 100 100 1600 900))) (Some "Table").

(** A segment that lost its category. *)
Definition unlabelled : Segment Q :=
  mkSegment (Some 1) (Some (layout (box 100 800 1600 900))) None.

Definition report : list (Element Q) :=
  [ mkElement "Annual report" heading;
    mkElement "The year in review." paragraph;
    mkElement "Revenue by quarter" figures ].

Definition first_page : Page := mkPage "report.pdf" 0.

Definition reply_of (c : Call Q) : Answer c :=
  match c return Answer c with
  | GetPixmap _ => mkPixmap (inject_Z 612) (inject_Z 792) []
  | _ => tt
  end.

Definition answering : Library Q := fun _ c => Ok (reply_of c).

End PlotScenario.

(** * Theorems *)

Local Open Scope py_scope.

(** ** Running the monad *)

Lemma bind_ok {A B} (m : M A) (k : A -> M B) w a w' :
  m w = (Ok a, w') -> bind m k w = k a w'.
Proof. intros H. unfold bind. now rewrite H. Qed.

Lemma join_concat sep (parts : list string) :
  join sep parts = String.concat sep parts.
Proof.
  induction parts as [|p rest IH]; [reflexivity|].
  destruct rest as [|q rest]; [reflexivity|].
  change (p ++ sep ++ join sep (q :: rest) = p ++ sep ++ String.concat sep (q :: rest)).
  now rewrite IH.
Qed.

Lemma page_entry_document (d : Document) w :
  page_entry (PDoc d) w = (Ok (Spec.labelled d), w).
Proof.
  unfold page_entry, Spec.labelled, Spec.page_label, dict_get. simpl.
  unfold bind, ret. simpl. destruct (metadata d !! "page_number"); reflexivity.
Qed.

Lemma entries_of_documents (docs : list Document) w :
  comprehension page_entry (map PDoc docs) w = (Ok (map Spec.labelled docs), w).
Proof.
  induction docs as [|d docs IH]; [reflexivity|].
  cbn [map comprehension].
  rewrite (bind_ok _ _ _ _ _ (page_entry_document d w)).
  rewrite (bind_ok _ _ _ _ _ IH). reflexivity.
Qed.

Lemma build_context_documents (docs : list Document) w :
  build_context (map PDoc docs) w = (Ok (Spec.context_of docs), w).
Proof.
  unfold build_context, Spec.context_of.
  rewrite (bind_ok _ _ _ _ _ (entries_of_documents docs w)).
  unfold ret. now rewrite join_concat.
Qed.

(** ** Context assembly and the generation request *)

(** The function, run to the end on a list of documents: one request,
    then [choices[0].message.content] of the reply. *)
Lemma generate_answer_run ext query (docs : list Document) w :
  let req := Spec.generation_request (Spec.context_of docs) query in
  let out := ext (trace w) req in
  generate_answer_with_gpt4 ext query (map PDoc docs) w =
    (match out with
     | Raise e => Raise e
     | Ok response =>
         match choices response with
         | c :: _ => Ok (message_content (message c))
         | [] => Raise (mkExn IndexError "list index out of range")
         end
     end,
     observed (mkEvent req (raised out)) w).
Proof.
  intros req out. unfold generate_answer_with_gpt4.
  rewrite (bind_ok _ _ _ _ _ (build_context_documents docs w)).
  unfold build_prompt, bind, call.
  change (ext (trace w) _) with out.
  destruct out as [response|e]; [|reflexivity].
  destruct response as [[|c rest]]; reflexivity.
Qed.

(** C3. For a list of retrieved documents the context is the list of
    ["Page {page_number}: {text}"] entries in the given (ranked) order,
    joined by a blank line, with ["Unknown"] where the [page_number] key
    is absent; results [C3 (page 5); C1 (page 1)] read
    ["Page 5: <C3 text>\n\nPage 1: <C1 text>"]; and this context is what
    [generate_answer_with_gpt4] puts into its request. *)
Theorem context_is_ranked_pages_joined_by_blank_line :
  (forall (docs : list Document) w,
      build_context (map PDoc docs) w = (Ok (Spec.context_of docs), w))
  /\ (forall text3 text1 (m3 m1 : gmap string scalar) w,
      build_context
        [ PDoc (mkDocument text3 (<["page_number" := SInt 5]> m3));
          PDoc (mkDocument text1 (<["page_number" := SInt 1]> m1)) ] w
      = (Ok ("Page 5: " ++ text3 ++ newline ++ newline ++ "Page 1: " ++ text1), w))
  /\ (forall text (m : gmap string scalar) w,
      build_context [ PDoc (mkDocument text (delete "page_number" m)) ] w
      = (Ok ("Page Unknown: " ++ text), w))
  /\ (forall ext query (docs : list Document) w,
      exists status,
        trace (snd (generate_answer_with_gpt4 ext query (map PDoc docs) w))
        = (trace w ++ [mkEvent (Spec.generation_request (Spec.context_of docs) query) status])%list).
Proof.
  split; [exact build_context_documents|].
  split.
  { intros text3 text1 m3 m1 w.
    change (build_context _ w) with
      (build_context
         (map PDoc [mkDocument text3 (<["page_number" := SInt 5]> m3);
                    mkDocument text1 (<["page_number" := SInt 1]> m1)]) w).
    rewrite build_context_documents.
    unfold Spec.context_of, Spec.labelled, Spec.page_label, Spec.blank_line.
    cbn [map String.concat metadata page_content].
    rewrite !lookup_insert_eq. cbn [str].
    change (str_int 5) with "5". change (str_int 1) with "1".
    reflexivity. }
  split.
  { intros text m w.
    change (build_context _ w) with
      (build_context (map PDoc [mkDocument text (delete "page_number" m)]) w).
    rewrite build_context_documents.
    unfold Spec.context_of, Spec.labelled, Spec.page_label.
    cbn [map String.concat metadata page_content].
    rewrite lookup_delete_eq. reflexivity. }
  intros ext query docs w. rewrite generate_answer_run. cbn [snd observed trace].
  eexists. reflexivity.
Qed.

(** C7. For every query and list of retrieved documents,
    [generate_answer_with_gpt4] issues exactly one request: model
    [gpt-4o], the system message ["You are a helpful assistant."] and one
    user message made of the preamble, the context, the query and the
    ["Answer:"] cue in this order, [max_tokens = 300],
    [temperature = 0.7]; it returns the text of the reply's first choice,
    and raises what the request raises. *)
Theorem generate_answer_issues_one_two_message_request
  ext query (docs : list Document) w :
  let req :=
    ChatCompletionsCreate "gpt-4o"
      [ mkMessage "system" "You are a helpful assistant.";
        mkMessage "user"
          (preamble ++ "Context: " ++ Spec.context_of docs ++ newline ++ newline
             ++ "Question: " ++ query ++ newline ++ newline ++ "Answer:") ]
      300 (Qmake 7 10) in
  let run := generate_answer_with_gpt4 ext query (map PDoc docs) w in
  trace (snd run) = (trace w ++ [mkEvent req (raised (ext (trace w) req))])%list
  /\ (forall c rest,
        ext (trace w) req = Ok (mkChatCompletion (c :: rest)) ->
        fst run = Ok (message_content (message c)))
  /\ (forall e, ext (trace w) req = Raise e -> fst run = Raise e).
Proof.
  intros req run. subst run. rewrite generate_answer_run.
  change (Spec.generation_request (Spec.context_of docs) query) with req.
  cbn [fst snd observed trace].
  split; [reflexivity|].
  split; [intros c rest H | intros e H]; now rewrite H.
Qed.

Lemma generate_answer_issues_one_two_message_request_witness :
  let docs := [Scenario.chunk_B; Scenario.chunk_A] in
  let timeout := mkExn TimeoutError "timed out" in
  fst (generate_answer_with_gpt4 Scenario.obliging query_model (map PDoc docs)
         Scenario.fresh)
  = Ok (SStr "The document has 10 pages.")
  /\ fst (generate_answer_with_gpt4 (Scenario.failing_generation timeout) query_model
            (map PDoc docs) Scenario.fresh)
     = Raise timeout.
Proof.
  intros docs timeout. split.
  - apply (proj1 (proj2 (generate_answer_issues_one_two_message_request
                           Scenario.obliging query_model docs Scenario.fresh))
             (mkChoice (mkChatCompletionMessage (SStr "The document has 10 pages."))) []).
    reflexivity.
  - apply (proj2 (proj2 (generate_answer_issues_one_two_message_request
                           (Scenario.failing_generation timeout) query_model docs
                           Scenario.fresh)) timeout).
    reflexivity.
Defined.

(** ** Setting up without the embedding key *)

(** C8. Without [JINA_API_KEY] in the environment [set_embeddings]
    raises [KeyError] while building the embedding client: nothing has
    been requested from any collaborator by then (no client, no
    collection, no entropy for identifiers); only the first log line
    was written. *)
Theorem set_embeddings_without_key_fails_first
  ext (doc : list pyobj) (name : string) w :
  environ w !! "JINA_API_KEY" = None ->
  set_embeddings ext doc name w
  = (Raise (mkExn KeyError "'JINA_API_KEY'"),
     logged (mkLogRecord INFO "Setting Jina Model.") w)
  /\ trace (snd (set_embeddings ext doc name w)) = trace w.
Proof.
  intros Hkey.
  assert (set_embeddings ext doc name w
          = (Raise (mkExn KeyError "'JINA_API_KEY'"),
             logged (mkLogRecord INFO "Setting Jina Model.") w)) as Hrun.
  { unfold set_embeddings, bind, logger_info, emit, environ_getitem.
    cbn [logged environ]. now rewrite Hkey. }
  split; [exact Hrun | now rewrite Hrun].
Qed.

Lemma set_embeddings_without_key_fails_first_witness :
  trace (snd (set_embeddings Scenario.obliging
                [PDoc Scenario.chunk_A; PDoc Scenario.chunk_B] "qdrant_test"
                Scenario.keyless)) = [].
Proof.
  apply (proj2 (set_embeddings_without_key_fails_first Scenario.obliging
                  [PDoc Scenario.chunk_A; PDoc Scenario.chunk_B] "qdrant_test"
                  Scenario.keyless eq_refl)).
Defined.

(** ** Insertion *)

(** Deriving a class from another does not make it a built-in class. *)
Lemma issubclass_derived n p (b : builtin_exn) :
  issubclass (Derived n p) b = issubclass p b.
Proof. reflexivity. Qed.

Lemma issubclass_trans_builtin c (b b' : builtin_exn) :
  issubclass c b = true -> issubclass b b' = true -> issubclass c b' = true.
Proof.
  induction c as [b0|n p IH].
  - destruct b0, b; try (vm_compute; congruence); destruct b'; vm_compute; congruence.
  - rewrite !issubclass_derived. exact IH.
Qed.

Lemma isinstance_up e (b b' : builtin_exn) :
  isinstance e b = true -> issubclass b b' = true -> isinstance e b' = true.
Proof. apply issubclass_trans_builtin. Qed.

Lemma append_assoc (s1 s2 s3 : string) : (s1 ++ s2) ++ s3 = s1 ++ s2 ++ s3.
Proof.
  induction s1 as [|a s1 IH]; [reflexivity|].
  change (String a ((s1 ++ s2) ++ s3) = String a (s1 ++ s2 ++ s3)).
  now f_equal.
Qed.

(** What [add_doc] does on a list that starts with a document. *)
Lemma add_doc_run ext vs (d : Document) rest ids w :
  let doc := PDoc d :: rest in
  let req := AddDocuments vs doc ids in
  let file_name := str (dict_get (metadata d) "filename" SNone) in
  let w1 := observed (mkEvent req (raised (ext (trace w) req))) w in
  match ext (trace w) req with
  | Ok _ =>
      add_doc ext vs doc ids w
      = (Ok SNone,
         logged (mkLogRecord SUCCESS ("Document " ++ file_name ++ " added to vector store")) w1)
  | Raise e =>
      if isinstance e Exception
      then exists prefix,
          add_doc ext vs doc ids w
          = (Ok SNone, logged (mkLogRecord ERROR (prefix ++ exn_str e)) w1)
      else add_doc ext vs doc ids w = (Raise e, w1)
  end.
Proof.
  intros doc req file_name w1. subst w1.
  unfold add_doc, doc, try_except, bind, call, getitem0, getattr_metadata, ret.
  change (ext (trace w) _) with (ext (trace w) req).
  destruct (ext (trace w) req) as [r|e]; [reflexivity|].
  cbn [List.find catches raised handler].
  destruct (isinstance e ValueError) eqn:HV.
  { rewrite (isinstance_up _ ValueError Exception HV eq_refl).
    eexists. reflexivity. }
  destruct (isinstance e TypeError) eqn:HT.
  { rewrite (isinstance_up _ TypeError Exception HT eq_refl).
    eexists. reflexivity. }
  destruct (isinstance e ConnectionError) eqn:HC.
  { rewrite (isinstance_up _ ConnectionError Exception HC eq_refl).
    eexists. reflexivity. }
  destruct (isinstance e Exception) eqn:HE; [|reflexivity].
  exists ("Unexpected error ocurred whhile adding document " ++ file_name ++ ": ").
  subst file_name. now rewrite !append_assoc.
Qed.

Lemma add_doc_empty ext vs ids w :
  add_doc ext vs [] ids w = (Raise (mkExn IndexError "list index out of range"), w).
Proof. reflexivity. Qed.

Lemma add_doc_not_a_document ext vs v rest ids w :
  add_doc ext vs (PVal v :: rest) ids w = (Raise (no_attribute v "metadata"), w).
Proof. reflexivity. Qed.

(** C1, as the code has it. For every vector store, identifier list and
    document list whose first element is a document: when the insertion
    returns, or raises an exception derived from [Exception]
    ([ValueError], [TypeError], [ConnectionError] or any other),
    [add_doc] returns normally after one insertion request; in the
    raising case one [ERROR] record ending in the exception's text is
    logged and nothing is raised again or tried again. An exception that
    does not derive from [Exception] leaves [add_doc] as it was raised. *)
Theorem add_doc_swallows_insertion_errors ext vs (d : Document) rest ids w :
  let doc := PDoc d :: rest in
  let req := AddDocuments vs doc ids in
  let file_name := str (dict_get (metadata d) "filename" SNone) in
  (forall r, ext (trace w) req = Ok r ->
     add_doc ext vs doc ids w
     = (Ok SNone,
        logged (mkLogRecord SUCCESS ("Document " ++ file_name ++ " added to vector store"))
               (observed (mkEvent req None) w)))
  /\ (forall e, ext (trace w) req = Raise e -> isinstance e Exception = true ->
      exists prefix,
        add_doc ext vs doc ids w
        = (Ok SNone,
           logged (mkLogRecord ERROR (prefix ++ exn_str e))
                  (observed (mkEvent req (Some e)) w)))
  /\ (forall e, ext (trace w) req = Raise e -> isinstance e Exception = false ->
      add_doc ext vs doc ids w = (Raise e, observed (mkEvent req (Some e)) w)).
Proof.
  intros doc req file_name.
  pose proof (add_doc_run ext vs d rest ids w) as Hrun. cbv zeta in Hrun.
  fold doc req file_name in Hrun.
  split; [|split].
  - intros r Hr. now rewrite Hr in Hrun.
  - intros e He HE. rewrite He, HE in Hrun. exact Hrun.
  - intros e He HE. rewrite He, HE in Hrun. exact Hrun.
Qed.

Lemma add_doc_swallows_insertion_errors_witness :
  let doc := [PDoc Scenario.chunk_A] in
  let req := AddDocuments Scenario.a_store doc ["id-1"] in
  let refused := mkExn ConnectionError "connection refused" in
  let interrupt := mkExn KeyboardInterrupt "" in
  add_doc Scenario.obliging Scenario.a_store doc ["id-1"] Scenario.fresh
  = (Ok SNone,
     logged (mkLogRecord SUCCESS "Document relatorio_b3_2023.pdf added to vector store")
       (observed (mkEvent req None) Scenario.fresh))
  /\ (exists prefix,
        add_doc (Scenario.failing_insert refused) Scenario.a_store doc ["id-1"]
          Scenario.fresh
        = (Ok SNone,
           logged (mkLogRecord ERROR (prefix ++ "connection refused"))
             (observed (mkEvent req (Some refused)) Scenario.fresh)))
  /\ add_doc (Scenario.failing_insert interrupt) Scenario.a_store doc ["id-1"]
       Scenario.fresh
     = (Raise interrupt, observed (mkEvent req (Some interrupt)) Scenario.fresh).
Proof.
  intros doc req refused interrupt. split; [|split].
  - apply (proj1 (add_doc_swallows_insertion_errors Scenario.obliging
                    Scenario.a_store Scenario.chunk_A [] ["id-1"] Scenario.fresh)
             ["id-1"]).
    reflexivity.
  - apply (proj1 (proj2 (add_doc_swallows_insertion_errors
                           (Scenario.failing_insert refused)
                           Scenario.a_store Scenario.chunk_A [] ["id-1"] Scenario.fresh))
             refused); reflexivity.
  - apply (proj2 (proj2 (add_doc_swallows_insertion_errors
                           (Scenario.failing_insert interrupt)
                           Scenario.a_store Scenario.chunk_A [] ["id-1"] Scenario.fresh))
             interrupt); reflexivity.
Defined.

(** C1 as stated fails: on the empty document list [doc[0]] raises
    [IndexError] before the [try] block is entered, and a
    [KeyboardInterrupt] raised by the insertion is caught by no clause. *)
Lemma add_doc_raises_out_of_the_call :
  fst (add_doc Scenario.obliging Scenario.a_store [] [] Scenario.fresh)
  = Raise (mkExn IndexError "list index out of range")
  /\ fst (add_doc (Scenario.failing_insert (mkExn KeyboardInterrupt ""))
            Scenario.a_store [PDoc Scenario.chunk_A] ["id-1"] Scenario.fresh)
     = Raise (mkExn KeyboardInterrupt "").
Proof. split; reflexivity. Qed.

(** C10. Whenever [add_doc] returns, it returns [None]: after a
    successful insertion and after a caught and logged exception alike. *)
Theorem add_doc_returns_None ext vs doc ids w v w' :
  add_doc ext vs doc ids w = (Ok v, w') -> v = SNone.
Proof.
  destruct doc as [|[d|x] rest].
  - rewrite add_doc_empty. congruence.
  - pose proof (add_doc_run ext vs d rest ids w) as Hrun. cbv zeta in Hrun.
    destruct (ext (trace w) _) as [r|e].
    + rewrite Hrun. congruence.
    + destruct (isinstance e Exception).
      * destruct Hrun as [prefix ->]. congruence.
      * rewrite Hrun. congruence.
  - rewrite add_doc_not_a_document. congruence.
Qed.

Lemma add_doc_returns_None_witness :
  returned (SInt 0)
    (fst (add_doc Scenario.obliging Scenario.a_store
            [PDoc Scenario.chunk_A] ["id-1"] Scenario.fresh)) = SNone
  /\ returned (SInt 0)
       (fst (add_doc (Scenario.failing_insert (mkExn TypeError "not a document"))
               Scenario.a_store [PDoc Scenario.chunk_A] ["id-1"] Scenario.fresh)) = SNone.
Proof.
  split.
  - apply (add_doc_returns_None Scenario.obliging Scenario.a_store
             [PDoc Scenario.chunk_A] ["id-1"] Scenario.fresh _
             (snd (add_doc Scenario.obliging Scenario.a_store
                     [PDoc Scenario.chunk_A] ["id-1"] Scenario.fresh))).
    reflexivity.
  - apply (add_doc_returns_None
             (Scenario.failing_insert (mkExn TypeError "not a document"))
             Scenario.a_store [PDoc Scenario.chunk_A] ["id-1"] Scenario.fresh _
             (snd (add_doc (Scenario.failing_insert (mkExn TypeError "not a document"))
                     Scenario.a_store [PDoc Scenario.chunk_A] ["id-1"] Scenario.fresh))).
    reflexivity.
Defined.

(** ** Identifiers *)

Lemma hex_digit_value_digit d : 0 <= d < 16 -> hex_digit_value (hex_digit d) = d.
Proof.
  intros H.
  assert (d = 0 \/ d = 1 \/ d = 2 \/ d = 3 \/ d = 4 \/ d = 5 \/ d = 6 \/ d = 7
          \/ d = 8 \/ d = 9 \/ d = 10 \/ d = 11 \/ d = 12 \/ d = 13 \/ d = 14
          \/ d = 15) as Hd by lia.
  repeat (destruct Hd as [->|Hd]; [reflexivity|]). now subst.
Qed.

Lemma length_hex_digits n i : length (hex_digits n i) = n.
Proof. induction n as [|n IH]; cbn; [reflexivity | now rewrite IH]. Qed.

Lemma hex_value_digits n i : hex_value (hex_digits n i) = i mod 16 ^ Z.of_nat n.
Proof.
  induction n as [|n IH].
  - cbn. now rewrite Z.mod_1_r.
  - cbn [hex_digits hex_value]. rewrite length_hex_digits, IH.
    rewrite hex_digit_value_digit by (apply Z.mod_pos_bound; lia).
    rewrite Nat2Z.inj_succ, Z.pow_succ_r by lia.
    rewrite (Z.mul_comm 16), Z.rem_mul_r by lia. lia.
Qed.

Lemma ungroup_group (hex : list ascii) :
  length hex = 32%nat -> ungroup (group_8_4_4_4_12 hex) = hex.
Proof.
  intros H.
  do 32 (destruct hex as [|? hex]; [discriminate H|]).
  destruct hex; [reflexivity | discriminate H].
Qed.

(** Printing loses nothing: a 128-bit value is read back from its text. *)
Lemma parse_str_uuid i : 0 <= i < 2 ^ 128 -> parse_uuid (str_uuid i) = i.
Proof.
  intros H. unfold parse_uuid, str_uuid.
  rewrite list_ascii_of_string_of_list_ascii, ungroup_group by apply length_hex_digits.
  rewrite hex_value_digits. change (16 ^ Z.of_nat 32) with (2 ^ 128).
  now apply Z.mod_small.
Qed.

Lemma uuid4_of_random_range rnd : 0 <= uuid4_of_random rnd < 2 ^ 128.
Proof.
  unfold uuid4_of_random.
  set (i := rnd mod 2 ^ 128).
  assert (0 <= i < 2 ^ 128) as Hi by (apply Z.mod_pos_bound; lia).
  set (u := Z.lor _ _).
  assert (0 <= u) as Hu.
  { subst u. apply Z.lor_nonneg. split; [|vm_compute; congruence].
    apply Z.land_nonneg. left. apply Z.lor_nonneg. split; [|vm_compute; congruence].
    apply Z.land_nonneg. now left. }
  split; [exact Hu|].
  assert (u mod 2 ^ 128 = u) as <-; [|apply Z.mod_pos_bound; lia].
  apply Z.bits_inj'. intros n Hn.
  destruct (Z.ltb_spec n 128) as [Hlt|Hge].
  - now rewrite Z.mod_pow2_bits_low.
  - rewrite Z.mod_pow2_bits_high by lia. symmetry. subst u.
    rewrite Z.lor_spec, Z.land_spec, Z.lor_spec, Z.land_spec.
    assert (Z.testbit i n = false) as ->.
    { destruct (Z.eq_dec i 0) as [->|Hne]; [apply Z.bits_0|].
      apply Z.bits_above_log2; [lia|].
      assert (Z.log2 i < 128); [|lia]. apply Z.log2_lt_pow2; lia. }
    assert (Z.testbit (Z.shiftl 32768 48) n = false) as ->.
    { apply Z.bits_above_log2; [vm_compute; congruence|].
      change (Z.log2 (Z.shiftl 32768 48)) with 63. lia. }
    assert (Z.testbit (Z.shiftl 4 76) n = false) as ->.
    { apply Z.bits_above_log2; [vm_compute; congruence|].
      change (Z.log2 (Z.shiftl 4 76)) with 78. lia. }
    reflexivity.
Qed.

Lemma str_uuid4_inj r1 r2 :
  str_uuid (uuid4_of_random r1) = str_uuid (uuid4_of_random r2) ->
  uuid4_of_random r1 = uuid4_of_random r2.
Proof.
  intros H.
  rewrite <- (parse_str_uuid _ (uuid4_of_random_range r1)).
  rewrite <- (parse_str_uuid _ (uuid4_of_random_range r2)).
  now rewrite H.
Qed.

(** The comprehension [[str(uuid4()) for _ in range(n)]], when it
    completes: one draw per element, in order. *)
Lemma identifiers_run ext (l : list nat) : forall w ids w',
  comprehension (fun _ : nat => u <- uuid4 ext ;; ret (str_uuid u)) l w = (Ok ids, w') ->
  exists draws,
    length draws = length l
    /\ ids = map Spec.identifier_of draws
    /\ w' = mkWorld (environ w) (openai_api_key w) (log w)
                    (trace w ++ map (fun _ => Spec.draw_event) draws)%list
    /\ forall i (r : Z), draws !! i = Some r ->
         ext (trace w ++ replicate i Spec.draw_event)%list (Urandom 16) = Ok r.
Proof.
  induction l as [|x l IH]; intros w ids w' H.
  - injection H as <- <-. exists []. cbn. rewrite app_nil_r.
    repeat split; [now destruct w | intros i r Hi; discriminate Hi].
  - cbn [comprehension] in H. unfold uuid4 in H. unfold bind, call, ret in H.
    destruct (ext (trace w) (Urandom 16)) as [r|e] eqn:Hr;
      cbn beta iota zeta delta [raised] in H; [|discriminate H].
    destruct (comprehension _ l _) as [[ids1|e] w1] eqn:Hrest; [|discriminate H].
    injection H as <- <-.
    destruct (IH _ _ _ Hrest) as (draws & Hlen & -> & -> & Hdraws).
    exists (r :: draws). cbn [length map observed trace environ openai_api_key log].
    rewrite <- app_assoc. repeat split; [now rewrite Hlen|].
    intros [|i] r' Hi.
    + injection Hi as <-. cbn. now rewrite app_nil_r.
    + cbn in Hi. specialize (Hdraws i r' Hi). cbn [observed trace] in Hdraws.
      now rewrite <- app_assoc in Hdraws.
Qed.

(** [set_embeddings], when it returns. *)
Lemma set_embeddings_ok ext doc name w vs ids w' :
  set_embeddings ext doc name w = (Ok (vs, ids), w') ->
  exists key draws,
    environ w !! "JINA_API_KEY" = Some key
    /\ vs = mkQdrantVectorStore (mkQdrantClient ":memory:") name
              (mkJinaEmbeddings key "jina-embeddings-v2-base-en")
    /\ length draws = length doc
    /\ ids = map Spec.identifier_of draws
    /\ trace w' = (trace w ++ Spec.setup_events key name
                     ++ map (fun _ => Spec.draw_event) draws)%list
    /\ forall i (r : Z), draws !! i = Some r ->
         ext (trace w ++ Spec.setup_events key name
                ++ replicate i Spec.draw_event)%list (Urandom 16) = Ok r.
Proof.
  unfold set_embeddings. intros H.
  unfold bind at 1, logger_info at 1, emit in H.
  unfold bind at 1, environ_getitem in H. cbn [logged environ] in H.
  destruct (environ w !! "JINA_API_KEY") as [key|] eqn:Hkey; [|discriminate H].
  unfold bind at 1, call at 1 in H. cbn [trace logged] in H.
  destruct (ext _ (JinaEmbeddingsInit _)) as [[]|e] eqn:H1; [|discriminate H].
  unfold bind at 1, logger_info at 1, emit in H.
  unfold bind at 1, call at 1 in H. cbn [trace logged observed raised] in H.
  destruct (ext _ (QdrantClientInit _)) as [[]|e] eqn:H2; [|discriminate H].
  unfold bind at 1, call at 1 in H. cbn [trace logged observed raised] in H.
  destruct (ext _ (CreateCollection _ _ _)) as [created|e] eqn:H3; [|discriminate H].
  unfold bind at 1, logger_info at 1, emit in H.
  unfold bind at 1, call at 1 in H. cbn [trace logged observed raised] in H.
  destruct (ext _ (QdrantVectorStoreInit _)) as [[]|e] eqn:H4; [|discriminate H].
  unfold bind at 1, logger_info at 1, emit in H.
  unfold bind at 1 in H.
  destruct (comprehension _ _ _) as [[uuids|e] w1] eqn:Hids; [|discriminate H].
  unfold bind at 1, logger_success, emit, ret in H.
  injection H as <- <- <-.
  destruct (identifiers_run _ _ _ _ _ Hids) as (draws & Hlen & -> & -> & Hdraws).
  rewrite length_seq in Hlen.
  exists key, draws. cbn [logged observed trace environ openai_api_key log] in *.
  unfold Spec.setup_events. rewrite <- !app_assoc in *. cbn [app] in *.
  repeat split; try assumption; try reflexivity.
  intros i r Hi. specialize (Hdraws i r Hi).
  rewrite <- !app_assoc in Hdraws. exact Hdraws.
Qed.

(** With collaborators that do not raise, the comprehension completes. *)
Lemma identifiers_complete ext (l : list nat) :
  (forall h r, raised (ext h r) = None) ->
  forall w, exists ids w',
    comprehension (fun _ : nat => u <- uuid4 ext ;; ret (str_uuid u)) l w = (Ok ids, w').
Proof.
  intros Hext. induction l as [|x l IH]; intros w.
  - eexists _, _. reflexivity.
  - pose proof (Hext (trace w) (Urandom 16)) as Hr.
    destruct (ext (trace w) (Urandom 16)) as [r|e] eqn:Hd; [|discriminate Hr].
    assert ((u <- uuid4 ext ;; ret (str_uuid u)) w
            = (Ok (Spec.identifier_of r), observed Spec.draw_event w)) as Hone.
    { unfold uuid4, bind, call, ret. now rewrite Hd. }
    destruct (IH (observed Spec.draw_event w)) as (ids & w' & Hrest).
    cbn [comprehension].
    rewrite (bind_ok _ _ _ _ _ Hone), (bind_ok _ _ _ _ _ Hrest).
    eexists _, _. reflexivity.
Qed.

Lemma call_quiet ext r w :
  raised (ext (trace w) r) = None ->
  exists v, call ext r w = (Ok v, observed (mkEvent r None) w).
Proof.
  intros H. unfold call. destruct (ext (trace w) r) as [v|e]; [|discriminate H].
  now exists v.
Qed.

Lemma emit_run l msg w : emit l msg w = (Ok tt, logged (mkLogRecord l msg) w).
Proof. reflexivity. Qed.

(** One statement of a run whose collaborators do not raise. *)
Ltac quiet_step Hext H :=
  lazymatch type of H with
  | bind (call ?ext ?r) _ ?w = _ =>
      let v := fresh "v" in
      let Hc := fresh "Hc" in
      destruct (call_quiet ext r w (Hext _ _)) as [v Hc];
      rewrite (bind_ok _ _ _ _ _ Hc) in H; clear Hc
  | bind (logger_info ?msg) _ ?w = _ =>
      rewrite (bind_ok _ _ _ _ _ (emit_run INFO msg w)) in H
  | bind (logger_success ?msg) _ ?w = _ =>
      rewrite (bind_ok _ _ _ _ _ (emit_run SUCCESS msg w)) in H
  end.

Lemma set_embeddings_complete ext doc name w key :
  (forall h r, raised (ext h r) = None) ->
  environ w !! "JINA_API_KEY" = Some key ->
  exists vs ids w', set_embeddings ext doc name w = (Ok (vs, ids), w').
Proof.
  intros Hext Hkey.
  destruct (set_embeddings ext doc name w) as [[[vs ids]|e] w'] eqn:H; [eauto|].
  exfalso. unfold set_embeddings in H.
  quiet_step Hext H.
  rewrite (bind_ok _ _ _ key (logged (mkLogRecord INFO "Setting Jina Model.") w)) in H
    by (unfold environ_getitem; cbn [logged environ]; now rewrite Hkey).
  cbv zeta in H. do 7 quiet_step Hext H.
  match type of H with bind (comprehension ?f ?l) _ ?w0 = _ =>
    destruct (identifiers_complete ext l Hext w0) as (ids & w1 & Hids) end.
  rewrite (bind_ok _ _ _ _ _ Hids) in H. quiet_step Hext H. discriminate H.
Qed.

(** C2, as the code has it. With the embedding key set and
    collaborators that answer, [set_embeddings] returns; and whenever it
    returns for a chunk sequence of length [n], the identifier sequence
    has length [n] and its [i]-th element is the text of the version-4
    UUID built from the [i]-th draw of entropy, the draws being made in
    chunk order. The identifiers are pairwise distinct exactly when the
    UUID values drawn are: the code draws them independently and does
    not compare them. *)
Theorem set_embeddings_identifiers ext doc name w :
  (forall key,
      (forall h r, raised (ext h r) = None) ->
      environ w !! "JINA_API_KEY" = Some key ->
      exists vs ids w', set_embeddings ext doc name w = (Ok (vs, ids), w'))
  /\ (forall vs ids w',
      set_embeddings ext doc name w = (Ok (vs, ids), w') ->
      length ids = length doc
      /\ exists key draws,
          length draws = length doc
          /\ (forall i (r : Z), draws !! i = Some r ->
                ext (trace w ++ Spec.setup_events key name
                       ++ replicate i Spec.draw_event)%list (Urandom 16) = Ok r
                /\ ids !! i = Some (str_uuid (uuid4_of_random r)))
          /\ (NoDup ids <-> NoDup (map uuid4_of_random draws))).
Proof.
  split.
  { intros key Hext Hkey. now apply (set_embeddings_complete ext doc name w key). }
  intros vs ids w' H.
  destruct (set_embeddings_ok _ _ _ _ _ _ _ H)
    as (key & draws & Hkey & -> & Hlen & -> & Htrace & Hdraws).
  split; [now rewrite length_map|].
  exists key, draws. split; [exact Hlen|]. split.
  - intros i r Hi. split; [now apply Hdraws|].
    change (map Spec.identifier_of draws) with (Spec.identifier_of <$> draws).
    now rewrite list_lookup_fmap, Hi.
  - change (map uuid4_of_random draws) with (uuid4_of_random <$> draws).
    replace (map Spec.identifier_of draws)
      with (str_uuid <$> (uuid4_of_random <$> draws))
      by (now rewrite <- list_fmap_compose).
    split; [apply NoDup_fmap_1|].
    apply NoDup_fmap_2_strong. intros x y Hx Hy Hxy.
    apply list_elem_of_fmap in Hx as (rx & -> & _).
    apply list_elem_of_fmap in Hy as (ry & -> & _).
    now apply str_uuid4_inj.
Qed.

Lemma set_embeddings_identifiers_witness :
  let docs := [PDoc Scenario.chunk_A; PDoc Scenario.chunk_B] in
  let run := set_embeddings Scenario.counting docs "qdrant_test" Scenario.fresh in
  (exists vs ids w', run = (Ok (vs, ids), w'))
  /\ length (snd (returned (Scenario.a_store, []) (fst run))) = length docs.
Proof.
  intros docs run. split.
  - apply (proj1 (set_embeddings_identifiers Scenario.counting docs "qdrant_test"
                    Scenario.fresh) "jina-key").
    + intros h r. destruct r; reflexivity.
    + reflexivity.
  - apply (proj1 (proj2 (set_embeddings_identifiers Scenario.counting docs
                           "qdrant_test" Scenario.fresh)
                    (fst (returned (Scenario.a_store, []) (fst run)))
                    (snd (returned (Scenario.a_store, []) (fst run)))
                    (snd run) eq_refl)).
Defined.

(** C2 as stated fails: when the entropy source returns the same
    sixteen bytes twice, two chunks receive the same identifier. *)
Lemma set_embeddings_identifiers_can_repeat :
  let zero := "00000000-0000-4000-8000-000000000000" in
  fst (set_embeddings Scenario.obliging
         [PDoc Scenario.chunk_A; PDoc Scenario.chunk_B] "qdrant_test" Scenario.fresh)
  = Ok (Scenario.a_store, [zero; zero])
  /\ ~ NoDup [zero; zero].
Proof.
  split; [reflexivity|].
  intros H. apply NoDup_cons in H as [H _]. apply H. now left.
Qed.

(** ** Loading *)

(** [load_docs], run to the end: the loader is built, asked once, and
    its answer is handed back untouched. *)
Lemma load_docs_run ext path w :
  let loader := mkUnstructuredLoader path "hi_res" true true in
  load_docs ext path w =
    match ext (trace w) (UnstructuredLoaderInit loader) with
    | Raise e => (Raise e, observed (mkEvent (UnstructuredLoaderInit loader) (Some e)) w)
    | Ok _ =>
        let w1 := observed (mkEvent (UnstructuredLoaderInit loader) None) w in
        match ext (trace w1) (LoaderLoad loader) with
        | Raise e => (Raise e, observed (mkEvent (LoaderLoad loader) (Some e)) w1)
        | Ok doc =>
            (Ok doc,
             logged (mkLogRecord SUCCESS ("Document " ++ path ++ "sucessfully loaded."))
                    (observed (mkEvent (LoaderLoad loader) None) w1))
        end
    end.
Proof.
  intros loader. unfold load_docs. fold loader. unfold bind, call.
  destruct (ext (trace w) (UnstructuredLoaderInit loader)) as [[]|e]; [|reflexivity].
  cbn [raised]. cbv zeta.
  destruct (ext _ (LoaderLoad loader)) as [doc|e]; reflexivity.
Qed.

Lemma load_docs_ok ext path w chunks :
  fst (load_docs ext path w) = Ok chunks ->
  exists h, ext h (LoaderLoad (mkUnstructuredLoader path "hi_res" true true)) = Ok chunks.
Proof.
  rewrite load_docs_run. cbv zeta.
  destruct (ext (trace w) (UnstructuredLoaderInit _)) as [[]|e]; [|discriminate].
  destruct (ext _ (LoaderLoad _)) as [doc|e] eqn:Hload; [|discriminate].
  cbn [fst]. intros [= <-]. eauto.
Qed.

(** C9, as the code has it. Both calls of [load_docs] on one path put
    the same request (same path, [hi_res], partitioning via the API,
    coordinates) to the partitioning service and return its reply as it
    is: the two chunk sequences are the service's two replies, hence
    identical in content, metadata and order whenever the service
    answers that request the same way each time. And for some pair of
    runs that load the same chunks, the identifiers [set_embeddings]
    generates afterwards differ. *)
Theorem load_docs_twice_returns_the_two_replies :
  (forall ext path w chunks1 chunks2,
      let loader := mkUnstructuredLoader path "hi_res" true true in
      let run1 := load_docs ext path w in
      let run2 := load_docs ext path (snd run1) in
      fst run1 = Ok chunks1 -> fst run2 = Ok chunks2 ->
      (exists h1 h2, ext h1 (LoaderLoad loader) = Ok chunks1
                     /\ ext h2 (LoaderLoad loader) = Ok chunks2)
      /\ ((forall h h', ext h (LoaderLoad loader) = ext h' (LoaderLoad loader)) ->
          chunks1 = chunks2))
  /\ (exists ext w chunks ids1 ids2,
        let run1 := load_docs ext FILE_PATH w in
        let setup1 := set_embeddings ext chunks "qdrant_test" (snd run1) in
        let run2 := load_docs ext FILE_PATH (snd setup1) in
        let setup2 := set_embeddings ext chunks "qdrant_test" (snd run2) in
        fst run1 = Ok chunks /\ fst run2 = Ok chunks
        /\ snd <$> value (fst setup1) = Some ids1
        /\ snd <$> value (fst setup2) = Some ids2
        /\ ids1 <> ids2).
Proof.
  split.
  - intros ext path w chunks1 chunks2 loader run1 run2 H1 H2.
    destruct (load_docs_ok _ _ _ _ H1) as [h1 Hh1].
    destruct (load_docs_ok _ _ _ _ H2) as [h2 Hh2].
    fold loader in Hh1, Hh2.
    split; [eauto|].
    intros Hsame. rewrite (Hsame h1 h2), Hh2 in Hh1. now injection Hh1.
  - exists Scenario.counting, Scenario.fresh, [PDoc Scenario.chunk_A; PDoc Scenario.chunk_B],
      ["00000000-0000-4000-8000-000000000006"; "00000000-0000-4000-8000-000000000007"],
      ["00000000-0000-4000-8000-00000000000e"; "00000000-0000-4000-8000-00000000000f"].
    cbv zeta. repeat split; try reflexivity. discriminate.
Qed.

Lemma load_docs_twice_returns_the_two_replies_witness :
  let run1 := load_docs Scenario.obliging FILE_PATH Scenario.fresh in
  let run2 := load_docs Scenario.obliging FILE_PATH (snd run1) in
  fst run1 = Ok [PDoc Scenario.chunk_A; PDoc Scenario.chunk_B]
  /\ fst run2 = Ok [PDoc Scenario.chunk_A; PDoc Scenario.chunk_B]
  /\ returned [] (fst run1) = returned [] (fst run2).
Proof.
  intros run1 run2. split; [reflexivity|]. split; [reflexivity|].
  apply (proj2 (proj1 load_docs_twice_returns_the_two_replies
                  Scenario.obliging FILE_PATH Scenario.fresh
                  (returned [] (fst run1)) (returned [] (fst run2))
                  eq_refl eq_refl)).
  reflexivity.
Defined.

(** C9 as stated fails: the file behind the path may change between
    the calls, and the second partitioning returns other chunks. *)
Lemma load_docs_twice_can_differ :
  let run1 := load_docs Scenario.rewritten_file FILE_PATH Scenario.fresh in
  let run2 := load_docs Scenario.rewritten_file FILE_PATH (snd run1) in
  fst run1 = Ok [PDoc Scenario.chunk_A]
  /\ fst run2 = Ok [PDoc Scenario.chunk_B]
  /\ [PDoc Scenario.chunk_A] <> [PDoc Scenario.chunk_B].
Proof.
  cbv zeta. repeat split; try reflexivity.
  intros H.
  apply (f_equal (fun l => match l with
                           | PDoc d :: _ => page_content d
                           | _ => ""
                           end)) in H.
  discriminate H.
Qed.

(** ** A logic for the requests of a run *)

Section UniformRules.

Context (P : option exn -> list Event -> Prop) (HP : uniform P).

Lemma emits_u_silent {A} (m : M A) :
  (forall w, trace (snd (m w)) = trace w) -> emits_u m P.
Proof.
  intros Hm w. exists []. rewrite app_nil_r. split; [apply Hm | apply (uniform_nil P HP)].
Qed.

Lemma emits_u_ret {A} (a : A) : emits_u (ret a) P.
Proof. now apply emits_u_silent. Qed.

Lemma emits_u_raise {A} (e : exn) : emits_u (@raise A e) P.
Proof. now apply emits_u_silent. Qed.

Lemma emits_u_emit l msg : emits_u (emit l msg) P.
Proof. now apply emits_u_silent. Qed.

Lemma emits_u_bind {A B} (m : M A) (k : A -> M B) :
  emits_u m P -> (forall a, emits_u (k a) P) -> emits_u (bind m k) P.
Proof.
  intros Hm Hk w. destruct (Hm w) as (evs1 & Ht1 & HP1).
  unfold bind. destruct (m w) as [[a|e] w1]; cbn [fst snd raised] in *.
  - destruct (Hk a w1) as (evs2 & Ht2 & HP2).
    exists (evs1 ++ evs2)%list. rewrite Ht2, Ht1, app_assoc.
    split; [reflexivity | now apply (uniform_app P HP)].
  - now exists evs1.
Qed.

Lemma emits_u_call ext r :
  (forall x, P x [mkEvent r x]) -> emits_u (call ext r) P.
Proof. intros Hr w. exists [mkEvent r (raised (ext (trace w) r))]. split; [reflexivity | apply Hr]. Qed.

Lemma emits_u_comprehension {A B} (f : A -> M B) (l : list A) :
  (forall x, emits_u (f x) P) -> emits_u (comprehension f l) P.
Proof.
  intros Hf. induction l as [|x l IH]; cbn [comprehension].
  - apply emits_u_ret.
  - apply emits_u_bind; [apply Hf|]. intros y.
    apply emits_u_bind; [apply IH|]. intros ys. apply emits_u_ret.
Qed.

Lemma emits_u_environ_getitem key : emits_u (environ_getitem key) P.
Proof.
  apply emits_u_silent. intros w. unfold environ_getitem.
  now destruct (environ w !! key).
Qed.

Lemma emits_u_environ_contains key : emits_u (environ_contains key) P.
Proof. now apply emits_u_silent. Qed.

Lemma emits_u_environ_setitem key v : emits_u (environ_setitem key v) P.
Proof. now apply emits_u_silent. Qed.

Lemma emits_u_set_openai_api_key v : emits_u (set_openai_api_key v) P.
Proof. now apply emits_u_silent. Qed.

Lemma emits_u_getitem0 {A} (l : list A) : emits_u (getitem0 l) P.
Proof. apply emits_u_silent. intros w. now destruct l. Qed.

Lemma emits_u_getattr_metadata o : emits_u (getattr_metadata o) P.
Proof. apply emits_u_silent. intros w. now destruct o. Qed.

Lemma emits_u_getattr_page_content o : emits_u (getattr_page_content o) P.
Proof. apply emits_u_silent. intros w. now destruct o. Qed.

End UniformRules.

(** Follow the structure of a program; [side] settles what a single
    request must satisfy, [special] the parts that have a lemma of
    their own. *)
Ltac emits_u_walk HP side special :=
  repeat first
    [ special
    | apply (emits_u_bind _ HP); [|intros ?]
    | apply (emits_u_ret _ HP)
    | apply (emits_u_raise _ HP)
    | apply (emits_u_emit _ HP)
    | apply (emits_u_comprehension _ HP); intros ?
    | apply emits_u_call; side
    | apply (emits_u_environ_getitem _ HP)
    | apply (emits_u_environ_contains _ HP)
    | apply (emits_u_environ_setitem _ HP)
    | apply (emits_u_set_openai_api_key _ HP)
    | apply (emits_u_getitem0 _ HP)
    | apply (emits_u_getattr_metadata _ HP)
    | apply (emits_u_getattr_page_content _ HP)
    | lazymatch goal with
      | |- emits_u (if ?b then _ else _) _ => destruct b
      | |- emits_u (match ?x with _ => _ end) _ => destruct x
      end ].

Lemma fatal_unless_insertion_uniform : uniform fatal_unless_insertion.
Proof.
  split.
  - intros r pre ev post e H. now destruct pre.
  - intros evs1 evs2 r H1 H2 pre ev post e Hsplit Hexn Hins.
    apply List.app_eq_app in Hsplit as [mid [[-> Heq]|[-> ->]]].
    + destruct mid as [|x mid]; cbn in Heq.
      * subst evs2. now apply (H2 [] ev post e).
      * injection Heq as <- ->.
        destruct (H1 pre ev mid e eq_refl Hexn Hins) as [_ Hr]. discriminate Hr.
    + now apply (H2 mid ev post e).
Qed.

Lemma fatal_single r x : fatal_unless_insertion x [mkEvent r x].
Proof.
  intros pre ev post e Hsplit Hexn _.
  destruct pre as [|y pre]; [|now destruct pre].
  injection Hsplit as <- <-. now split.
Qed.

Lemma fatal_insertions r evs :
  Forall (fun ev => is_insertion (ev_req ev) = true) evs ->
  fatal_unless_insertion r evs.
Proof.
  intros Hall pre ev post e -> _ Hins.
  apply Forall_app in Hall as [_ Hall]. apply Forall_cons in Hall as [Hev _].
  congruence.
Qed.

(** [add_doc] issues at most one request, the insertion. *)
Lemma add_doc_events ext vs doc ids w :
  exists evs,
    trace (snd (add_doc ext vs doc ids w)) = (trace w ++ evs)%list
    /\ (evs = [] \/ exists x, evs = [mkEvent (AddDocuments vs doc ids) x]).
Proof.
  destruct doc as [|[d|v] rest].
  - exists []. rewrite add_doc_empty, app_nil_r. auto.
  - pose proof (add_doc_run ext vs d rest ids w) as Hrun. cbv zeta in Hrun.
    exists [mkEvent (AddDocuments vs (PDoc d :: rest) ids)
                    (raised (ext (trace w) (AddDocuments vs (PDoc d :: rest) ids)))].
    split; [|right; eexists; reflexivity].
    destruct (ext (trace w) _) as [r|e].
    + now rewrite Hrun.
    + destruct (isinstance e Exception).
      * destruct Hrun as [prefix ->]. reflexivity.
      * now rewrite Hrun.
  - exists []. rewrite add_doc_not_a_document, app_nil_r. auto.
Qed.

Lemma add_doc_fatal ext vs doc ids :
  emits_u (add_doc ext vs doc ids) fatal_unless_insertion.
Proof.
  intros w. destruct (add_doc_events ext vs doc ids w) as (evs & Ht & Hevs).
  exists evs. split; [exact Ht|]. apply fatal_insertions.
  destruct Hevs as [->|[x ->]]; repeat constructor.
Qed.

(** Every request of the script other than the insertion is fatal when it raises. *)
Lemma main_fatal ext : emits_u (main ext) fatal_unless_insertion.
Proof.
  unfold main, load_dotenv, setdefault_env, check_keys, load_docs, set_embeddings,
    generate_answer_with_gpt4, build_context, page_entry, uuid4,
    logger_info, logger_success.
  emits_u_walk fatal_unless_insertion_uniform
    ltac:(intros; apply fatal_single) ltac:(apply add_doc_fatal).
Qed.

(** C6. In a run of the script, a request other than the insertion
    that raises (loading the document, the similarity search, the
    generation call, and every other one) is the last request of the
    run, and the run ends with that very exception: nothing catches it,
    nothing is asked again, no answer is produced. An exception the run
    survives can therefore only come from the insertion. *)
Theorem only_insertion_errors_are_swallowed ext w pre ev post e :
  trace (snd (main ext w)) = (trace w ++ pre ++ ev :: post)%list ->
  ev_exn ev = Some e ->
  is_insertion (ev_req ev) = false ->
  post = [] /\ fst (main ext w) = Raise e.
Proof.
  intros Htrace Hexn Hins.
  destruct (main_fatal ext w) as (evs & Hevs & Hfatal).
  rewrite Hevs in Htrace. apply app_inv_head in Htrace. subst evs.
  destruct (Hfatal pre ev post e eq_refl Hexn Hins) as [-> Hr].
  split; [reflexivity|].
  destruct (fst (main ext w)) as [a|e']; [discriminate Hr | now injection Hr as ->].
Qed.

Lemma only_insertion_errors_are_swallowed_witness :
  fst (main (Scenario.failing_load (mkExn ConnectionError "service unreachable"))
         Scenario.fresh)
  = Raise (mkExn ConnectionError "service unreachable").
Proof.
  pose (loader := mkUnstructuredLoader FILE_PATH "hi_res" true true).
  apply (only_insertion_errors_are_swallowed
           (Scenario.failing_load (mkExn ConnectionError "service unreachable"))
           Scenario.fresh
           [mkEvent LoadDotenv None; mkEvent (UnstructuredLoaderInit loader) None]
           (mkEvent (LoaderLoad loader) (Some (mkExn ConnectionError "service unreachable")))
           [] (mkExn ConnectionError "service unreachable"));
    reflexivity.
Defined.

(** A failed insertion, by contrast, does not end the run: the search
    and the generation follow, and the answer is logged. *)
Example main_survives_a_failed_insertion :
  let run := main (Scenario.failing_insert (mkExn TypeError "not a document"))
               Scenario.fresh in
  fst run = Ok tt
  /\ map (fun ev => (is_insertion (ev_req ev), ev_exn ev)) (drop 9 (trace (snd run)))
     = [ (true, Some (mkExn TypeError "not a document")); (false, None); (false, None) ]
  /\ last (log (snd run))
     = Some (mkLogRecord SUCCESS "Answer: The document has 10 pages.").
Proof. cbv zeta. repeat split; reflexivity. Qed.

(** ** The collection's configuration *)

Lemma monitor_app s evs1 evs2 :
  monitor s (evs1 ++ evs2)%list
  = match monitor s evs1 with
    | Some s' => monitor s' evs2
    | None => None
    end.
Proof.
  revert s. induction evs1 as [|ev evs1 IH]; intros s; cbn; [reflexivity|].
  destruct (step s ev); [apply IH | reflexivity].
Qed.

Lemma stays_uniform s : uniform (stays s).
Proof.
  split; [reflexivity|].
  intros evs1 evs2 r H1 H2. unfold stays in *. now rewrite monitor_app, H1.
Qed.

Lemma step_inert s r x : inert r = true -> step s (mkEvent r x) = Some s.
Proof. unfold step. cbn [ev_req]. destruct r; (discriminate || reflexivity). Qed.

Lemma stays_inert s r x y : inert r = true -> stays s y [mkEvent r x].
Proof. intros H. unfold stays. cbn. now rewrite step_inert. Qed.

Lemma stays_targets vs r x y :
  targets r = Some vs ->
  stays (Created (client vs) (collection_name vs)) y [mkEvent r x].
Proof.
  intros H. unfold stays. cbn [monitor].
  assert (step (Created (client vs) (collection_name vs)) (mkEvent r x)
          = Some (Created (client vs) (collection_name vs))) as ->; [|reflexivity].
  unfold step. cbn [ev_req].
  destruct r; try discriminate H; injection H as ->; now rewrite decide_True.
Qed.

Lemma add_doc_stays ext vs doc ids :
  emits_u (add_doc ext vs doc ids) (stays (Created (client vs) (collection_name vs))).
Proof.
  intros w. destruct (add_doc_events ext vs doc ids w) as (evs & Ht & Hevs).
  exists evs. split; [exact Ht|].
  destruct Hevs as [->|[x ->]]; [reflexivity | now apply (stays_targets vs)].
Qed.

(** Composition for accepted runs: a part that leaves the monitor
    where it is, then the rest. *)
Lemma emits_stays_then {A B} s (m : M A) (k : A -> M B) :
  emits_u m (stays s) ->
  (forall a, emits (k a) (accepted s)) ->
  emits (bind m k) (accepted s).
Proof.
  intros Hm Hk w. destruct (Hm w) as (evs1 & Ht1 & H1). unfold stays in H1.
  unfold bind. destruct (m w) as [[a|e] w1]; cbn [fst snd] in *.
  - destruct (Hk a w1) as (evs2 & Ht2 & H2).
    exists (evs1 ++ evs2)%list. rewrite Ht2, Ht1, app_assoc. split; [reflexivity|].
    unfold accepted in *. now rewrite monitor_app, H1.
  - exists evs1. split; [exact Ht1|]. unfold accepted. now rewrite H1.
Qed.

(** The creation of the collection, then a rest that keeps to it. *)
Lemma emits_create_then {B} ext c n (k : bool -> M B) :
  (forall a, emits_u (k a) (stays (Created c n))) ->
  emits (bind (call ext (CreateCollection c n dim768_cosine)) k) (accepted NoCollection).
Proof.
  intros Hk w. unfold bind, call.
  destruct (ext (trace w) (CreateCollection c n dim768_cosine)) as [a|e]; cbn [raised].
  - destruct (Hk a (observed (mkEvent (CreateCollection c n dim768_cosine) None) w))
      as (evs & Ht & H).
    exists (mkEvent (CreateCollection c n dim768_cosine) None :: evs).
    rewrite Ht. cbn [observed trace]. rewrite <- app_assoc. split; [reflexivity|].
    unfold accepted, stays in *. cbn [monitor]. unfold step at 1. cbn [ev_req ev_exn].
    rewrite decide_True by reflexivity. now rewrite H.
  - eexists [_]. split; [reflexivity|]. unfold accepted. cbn [monitor].
    unfold step. cbn [ev_req ev_exn]. rewrite decide_True by reflexivity. eauto.
Qed.

Ltac inert_side := intros; apply stays_inert; reflexivity.

Lemma set_embeddings_accepted ext doc name :
  emits (set_embeddings ext doc name) (accepted NoCollection).
Proof.
  unfold set_embeddings, logger_info, logger_success.
  do 5 (apply emits_stays_then;
        [emits_u_walk (stays_uniform NoCollection) inert_side fail | intros ?]).
  apply emits_create_then. intros created. unfold uuid4.
  emits_u_walk (stays_uniform (Created (mkQdrantClient ":memory:") name)) inert_side fail.
Qed.

Lemma monitor_draws s (draws : list Z) :
  monitor s (map (fun _ => Spec.draw_event) draws) = Some s.
Proof. induction draws as [|r draws IH]; [reflexivity | exact IH]. Qed.

(** When [set_embeddings] returns, the monitor has seen the returned
    store's collection being created. *)
Lemma set_embeddings_creates ext doc name w vs ids w' :
  set_embeddings ext doc name w = (Ok (vs, ids), w') ->
  exists evs,
    trace w' = (trace w ++ evs)%list
    /\ monitor NoCollection evs = Some (Created (client vs) (collection_name vs)).
Proof.
  intros H.
  destruct (set_embeddings_ok _ _ _ _ _ _ _ H)
    as (key & draws & _ & -> & _ & _ & Htrace & _).
  eexists. split; [exact Htrace|].
  rewrite monitor_app.
  assert (monitor NoCollection (Spec.setup_events key name)
          = Some (Created (mkQdrantClient ":memory:") name)) as ->.
  { unfold Spec.setup_events. cbn [monitor]. unfold step. cbn [ev_req ev_exn].
    now rewrite decide_True. }
  apply monitor_draws.
Qed.

Lemma emits_set_embeddings_then {B} ext doc name
  (k : QdrantVectorStore * list string -> M B) :
  (forall vs ids,
      emits_u (k (vs, ids)) (stays (Created (client vs) (collection_name vs)))) ->
  emits (bind (set_embeddings ext doc name) k) (accepted NoCollection).
Proof.
  intros Hk w. destruct (set_embeddings_accepted ext doc name w) as (evs1 & Ht1 & Hacc).
  unfold bind.
  destruct (set_embeddings ext doc name w) as [[[vs ids]|e] w1] eqn:Hrun;
    cbn [fst snd] in *.
  - destruct (set_embeddings_creates _ _ _ _ _ _ _ Hrun) as (evs1' & Ht1' & Hmon).
    rewrite Ht1 in Ht1'. apply app_inv_head in Ht1'. subst evs1'.
    destruct (Hk vs ids w1) as (evs2 & Ht2 & H2).
    exists (evs1 ++ evs2)%list. rewrite Ht2, Ht1, app_assoc. split; [reflexivity|].
    unfold accepted, stays in *. rewrite monitor_app, Hmon, H2. eauto.
  - now exists evs1.
Qed.

(** The whole script is accepted by the monitor. *)
Lemma main_accepted ext : emits (main ext) (accepted NoCollection).
Proof.
  unfold main, logger_info, logger_success.
  do 6 (apply emits_stays_then;
        [ unfold load_dotenv, setdefault_env, check_keys, load_docs;
          emits_u_walk (stays_uniform NoCollection) inert_side fail
        | intros ? ]).
  apply emits_set_embeddings_then. intros vs ids. cbn [fst snd].
  unfold generate_answer_with_gpt4, build_context, page_entry.
  emits_u_walk (stays_uniform (Created (client vs) (collection_name vs)))
    ltac:(intros; first [ apply stays_inert; reflexivity
                        | apply (stays_targets vs); reflexivity ])
    ltac:(apply add_doc_stays).
Qed.

(** What acceptance by the monitor means for the events themselves. *)
Lemma accepted_creates evs : forall s,
  is_Some (monitor s evs) ->
  forall ev c n cfg,
    ev ∈ evs -> ev_req ev = CreateCollection c n cfg -> cfg = dim768_cosine.
Proof.
  induction evs as [|ev0 evs IH]; intros s Hacc ev c n cfg Hin Hreq.
  - now apply elem_of_nil in Hin.
  - cbn [monitor] in Hacc. destruct (step s ev0) as [s'|] eqn:Hstep;
      [|now destruct Hacc].
    apply elem_of_cons in Hin as [->|Hin]; [|now apply (IH s' Hacc ev c n)].
    unfold step in Hstep. rewrite Hreq in Hstep.
    destruct s; [|discriminate Hstep]. now case_decide.
Qed.

Lemma step_created c n ev s' :
  step (Created c n) ev = Some s' ->
  s' = Created c n /\ is_create (ev_req ev) = false.
Proof.
  unfold step. destruct (ev_req ev); try (now intros [= <-]);
    try discriminate; case_decide; try discriminate; now intros [= <-].
Qed.

Lemma accepted_after_creation post : forall c n,
  is_Some (monitor (Created c n) post) ->
  Forall (fun ev => is_create (ev_req ev) = false) post.
Proof.
  induction post as [|ev post IH]; intros c n Hacc; [constructor|].
  cbn [monitor] in Hacc. destruct (step (Created c n) ev) as [s'|] eqn:Hstep;
    [|now destruct Hacc].
  apply step_created in Hstep as [-> Hev]. constructor; [exact Hev | now apply (IH c n)].
Qed.

Lemma accepted_targets pre s ev post vs :
  is_Some (monitor s (pre ++ ev :: post)%list) ->
  targets (ev_req ev) = Some vs ->
  monitor s pre = Some (Created (client vs) (collection_name vs)).
Proof.
  rewrite monitor_app. destruct (monitor s pre) as [s'|]; [|now intros []].
  cbn [monitor]. destruct (step s' ev) as [s''|] eqn:Hstep; [|now intros []].
  intros _ Htargets. unfold step in Hstep.
  destruct (ev_req ev); try discriminate Htargets; injection Htargets as ->;
    (destruct s' as [|c n]; [discriminate Hstep|]; case_decide as Hd;
     [now destruct Hd as [-> ->] | discriminate Hstep]).
Qed.

Lemma created_by_an_event pre : forall s c n,
  monitor s pre = Some (Created c n) ->
  s = Created c n \/ mkEvent (CreateCollection c n dim768_cosine) None ∈ pre.
Proof.
  induction pre as [|ev pre IH]; intros s c n H.
  - left. now injection H.
  - cbn [monitor] in H. destruct (step s ev) as [s'|] eqn:Hstep; [|discriminate H].
    destruct (IH s' c n H) as [->|Hin]; [|right; now apply elem_of_cons; right].
    destruct s as [|c0 n0].
    + right. apply elem_of_cons. left.
      destruct ev as [r x]. unfold step in Hstep. cbn [ev_req ev_exn] in Hstep.
      destruct r; try discriminate Hstep.
      case_decide as Hcfg; [|discriminate Hstep]. subst.
      destruct x; [discriminate Hstep | now injection Hstep as -> ->].
    + left. now apply step_created in Hstep as [[= -> ->] _].
Qed.

(** C5. [set_embeddings] creates the collection of the store it
    returns with dimension 768 and the cosine metric, once. In a run of
    the script every collection is created with that configuration;
    once one is created no later request creates one again; and every
    insertion and every search is addressed to a collection this run
    created, successfully, with dimension 768 and the cosine metric. *)
Theorem collection_is_768_cosine_throughout :
  (forall ext doc name w vs ids w',
      set_embeddings ext doc name w = (Ok (vs, ids), w') ->
      exists pre post,
        trace w' = (trace w ++ pre
                      ++ mkEvent (CreateCollection (client vs) (collection_name vs)
                                    (mkVectorParams 768 COSINE)) None :: post)%list
        /\ Forall (fun ev => is_create (ev_req ev) = false) (pre ++ post)%list)
  /\ (forall ext w evs,
      trace (snd (main ext w)) = (trace w ++ evs)%list ->
      (forall ev c n cfg,
          ev ∈ evs -> ev_req ev = CreateCollection c n cfg ->
          cfg = mkVectorParams 768 COSINE)
      /\ (forall pre ev post,
          evs = (pre ++ ev :: post)%list -> is_create (ev_req ev) = true ->
          Forall (fun ev' => is_create (ev_req ev') = false) post)
      /\ (forall pre ev post vs,
          evs = (pre ++ ev :: post)%list -> targets (ev_req ev) = Some vs ->
          mkEvent (CreateCollection (client vs) (collection_name vs)
                     (mkVectorParams 768 COSINE)) None ∈ pre)).
Proof.
  split.
  { intros ext doc name w vs ids w' H.
    destruct (set_embeddings_ok _ _ _ _ _ _ _ H)
      as (key & draws & _ & -> & _ & _ & Htrace & _).
    exists [mkEvent (JinaEmbeddingsInit (mkJinaEmbeddings key "jina-embeddings-v2-base-en")) None;
            mkEvent (QdrantClientInit (mkQdrantClient ":memory:")) None].
    eexists. split; [exact Htrace|].
    cbn [app]. repeat (constructor; [reflexivity|]).
    clear. induction draws; constructor; [reflexivity | assumption]. }
  intros ext w evs Htrace.
  destruct (main_accepted ext w) as (evs' & Hevs & Hacc).
  rewrite Hevs in Htrace. apply app_inv_head in Htrace. subst evs'.
  unfold accepted in Hacc.
  split; [|split].
  - intros ev c n cfg. now apply (accepted_creates evs NoCollection).
  - intros pre ev post -> Hcreate.
    destruct (ev_exn ev) as [e|] eqn:Hexn.
    + destruct (main_fatal ext w) as (evs' & Hevs' & Hfatal).
      rewrite Hevs in Hevs'. apply app_inv_head in Hevs'. subst evs'.
      destruct (Hfatal pre ev post e eq_refl Hexn) as [-> _]; [|constructor].
      now destruct (ev_req ev).
    + rewrite monitor_app in Hacc.
      destruct (monitor NoCollection pre) as [s|]; [|now destruct Hacc].
      cbn [monitor] in Hacc. destruct (step s ev) as [s'|] eqn:Hstep;
        [|now destruct Hacc].
      unfold step in Hstep. rewrite Hexn in Hstep.
      destruct (ev_req ev); try discriminate Hcreate.
      destruct s; [|discriminate Hstep].
      case_decide; [|discriminate Hstep]. injection Hstep as <-.
      now apply accepted_after_creation in Hacc.
  - intros pre ev post vs -> Htargets.
    pose proof (accepted_targets _ _ _ _ _ Hacc Htargets) as Hpre.
    now destruct (created_by_an_event _ _ _ _ Hpre) as [Hs|Hin].
Qed.

Lemma collection_is_768_cosine_throughout_witness :
  let docs := [PDoc Scenario.chunk_A; PDoc Scenario.chunk_B] in
  let zero := "00000000-0000-4000-8000-000000000000" in
  let setup := set_embeddings Scenario.obliging docs "qdrant_test" Scenario.fresh in
  let evs := trace (snd (main Scenario.obliging Scenario.fresh)) in
  let creation :=
    mkEvent (CreateCollection (mkQdrantClient ":memory:") "qdrant_test"
               (mkVectorParams 768 COSINE)) None in
  (exists pre post,
      trace (snd setup) = (pre ++ creation :: post)%list
      /\ Forall (fun ev => is_create (ev_req ev) = false) (pre ++ post)%list)
  /\ nth_error evs 5 = Some creation
  /\ Forall (fun ev => is_create (ev_req ev) = false) (drop 6 evs)
  /\ nth_error evs 9 = Some (mkEvent (AddDocuments Scenario.a_store docs [zero; zero]) None)
  /\ creation ∈ take 9 evs.
Proof.
  intros docs zero setup evs creation.
  split; [|split; [reflexivity|split; [|split; [reflexivity|]]]].
  - apply (proj1 collection_is_768_cosine_throughout Scenario.obliging docs
             "qdrant_test" Scenario.fresh Scenario.a_store [zero; zero] (snd setup)).
    reflexivity.
  - apply (proj1 (proj2 (proj2 collection_is_768_cosine_throughout
                           Scenario.obliging Scenario.fresh evs eq_refl))
             (take 5 evs) creation (drop 6 evs)); reflexivity.
  - apply (proj2 (proj2 (proj2 collection_is_768_cosine_throughout
                           Scenario.obliging Scenario.fresh evs eq_refl))
             (take 9 evs)
             (mkEvent (AddDocuments Scenario.a_store docs [zero; zero]) None)
             (drop 10 evs) Scenario.a_store); reflexivity.
Defined.

(** * Further properties of the code *)

(** ** [check_keys] *)

(** [check_keys], run to the end: the second half, then the whole. *)
Lemma check_keys_openai_half ext w :
  let prompt := Getpass "Enter your OpenAI API key:" in
  (has_openai <- environ_contains "OPENAI_API_KEY" ;;
   (if negb has_openai then
      v <- call ext prompt ;;
      environ_setitem "OPENAI_API_KEY" v
    else ret tt) ;;;
   ret SNone) w
  = match environ w !! "OPENAI_API_KEY" with
    | Some _ => (Ok SNone, w)
    | None =>
        match ext (trace w) prompt with
        | Raise e => (Raise e, observed (mkEvent prompt (Some e)) w)
        | Ok v =>
            (Ok SNone,
             snd (environ_setitem "OPENAI_API_KEY" v (observed (mkEvent prompt None) w)))
        end
    end.
Proof.
  intros prompt. unfold bind, environ_contains, call, ret.
  destruct (environ w !! "OPENAI_API_KEY") as [x|] eqn:Hx.
  - rewrite bool_decide_eq_true_2 by eauto. reflexivity.
  - rewrite bool_decide_eq_false_2 by (intros [? ?]; discriminate). cbn [negb].
    fold prompt. destruct (ext (trace w) prompt); reflexivity.
Qed.

Lemma check_keys_run ext w :
  let prompt := Getpass "Enter you Unstructured API key:" in
  let rest w1 :=
    (has_openai <- environ_contains "OPENAI_API_KEY" ;;
     (if negb has_openai then
        v <- call ext (Getpass "Enter your OpenAI API key:") ;;
        environ_setitem "OPENAI_API_KEY" v
      else ret tt) ;;;
     ret SNone) w1 in
  check_keys ext w
  = match environ w !! "UNSTRUCTURED_API_KEY" with
    | Some _ => rest w
    | None =>
        match ext (trace w) prompt with
        | Raise e => (Raise e, observed (mkEvent prompt (Some e)) w)
        | Ok v =>
            rest (snd (environ_setitem "UNSTRUCTURED_API_KEY" v
                         (observed (mkEvent prompt None) w)))
        end
    end.
Proof.
  intros prompt rest. unfold check_keys.
  unfold bind at 1, environ_contains at 1.
  destruct (environ w !! "UNSTRUCTURED_API_KEY") as [x|] eqn:Hx.
  - rewrite bool_decide_eq_true_2 by eauto. cbn [negb].
    unfold bind at 1. reflexivity.
  - rewrite bool_decide_eq_false_2 by (intros [? ?]; discriminate). cbn [negb].
    unfold bind at 1 2, call at 1. fold prompt.
    destruct (ext (trace w) prompt); reflexivity.
Qed.

(** X1. When [check_keys] returns, both [UNSTRUCTURED_API_KEY] and
    [OPENAI_API_KEY] are set; every variable that was set keeps its
    value (a key that is present is never overwritten by a prompt); no
    other variable changes; nothing is logged. *)
Theorem check_keys_ensures_both_keys ext w v :
  fst (check_keys ext w) = Ok v ->
  let w' := snd (check_keys ext w) in
  is_Some (environ w' !! "UNSTRUCTURED_API_KEY")
  /\ is_Some (environ w' !! "OPENAI_API_KEY")
  /\ (forall k x, environ w !! k = Some x -> environ w' !! k = Some x)
  /\ (forall k, k <> "UNSTRUCTURED_API_KEY" -> k <> "OPENAI_API_KEY" ->
                environ w' !! k = environ w !! k)
  /\ log w' = log w.
Proof.
  rewrite check_keys_run. cbv zeta.
  destruct (environ w !! "UNSTRUCTURED_API_KEY") as [u|] eqn:Hu.
  - rewrite check_keys_openai_half. cbv zeta.
    destruct (environ w !! "OPENAI_API_KEY") as [o|] eqn:Ho.
    + intros _. cbn [snd]. rewrite Hu, Ho. eauto 10.
    + destruct (ext (trace w) _) as [o|e]; [|discriminate].
      intros _. cbn [snd environ_setitem environ observed log].
      repeat split.
      * rewrite lookup_insert_ne by discriminate. rewrite Hu. eauto.
      * rewrite lookup_insert_eq. eauto.
      * intros k x Hk. rewrite lookup_insert_ne by congruence. exact Hk.
      * intros k _ Hk. now rewrite lookup_insert_ne.
  - destruct (ext (trace w) _) as [u|e]; [|discriminate].
    rewrite check_keys_openai_half. cbv zeta.
    set (w1 := snd (environ_setitem "UNSTRUCTURED_API_KEY" u _)).
    assert (environ w1 = <["UNSTRUCTURED_API_KEY":=u]> (environ w)) as Henv by reflexivity.
    assert (log w1 = log w) as Hlog by reflexivity.
    destruct (environ w1 !! "OPENAI_API_KEY") as [o|] eqn:Ho.
    + intros _. cbn [snd]. rewrite Ho, Hlog, Henv, lookup_insert_eq.
      repeat split; eauto.
      * intros k x Hk. rewrite lookup_insert_ne by congruence. exact Hk.
      * intros k Hk _. now rewrite lookup_insert_ne.
    + destruct (ext _ _) as [o|e]; [|discriminate].
      intros _. cbn [snd environ_setitem environ observed log]. rewrite Henv, Hlog.
      rewrite Henv, lookup_insert_ne in Ho by discriminate.
      repeat split.
      * rewrite lookup_insert_ne by discriminate. rewrite lookup_insert_eq. eauto.
      * rewrite lookup_insert_eq. eauto.
      * intros k x Hk. rewrite !lookup_insert_ne by congruence. exact Hk.
      * intros k Hku Hko. now rewrite !lookup_insert_ne.
Qed.

Lemma check_keys_ensures_both_keys_witness :
  let w' := snd (check_keys Scenario.obliging Scenario.keyless) in
  is_Some (environ w' !! "UNSTRUCTURED_API_KEY")
  /\ is_Some (environ w' !! "OPENAI_API_KEY")
  /\ environ w' !! "JINA_API_KEY" = None.
Proof.
  destruct (check_keys_ensures_both_keys Scenario.obliging Scenario.keyless SNone eq_refl)
    as (Hu & Ho & _ & Hother & _).
  split; [exact Hu | split; [exact Ho|]].
  rewrite Hother; [reflexivity | discriminate | discriminate].
Defined.



(** ** [load_docs] *)

(** X3. [load_docs] writes its success record only when the
    partitioning returned, and then returns the reply unchanged after
    exactly two requests (build the loader, load); when either request
    raises, the exception propagates, nothing is logged, and a loader
    that could not be built is never asked to load. *)
Theorem load_docs_logs_only_success ext path w :
  let loader := mkUnstructuredLoader path "hi_res" true true in
  let built x := mkEvent (UnstructuredLoaderInit loader) x in
  let loaded x := mkEvent (LoaderLoad loader) x in
  let run := load_docs ext path w in
  (forall doc, fst run = Ok doc ->
     trace (snd run) = (trace w ++ [built None; loaded None])%list
     /\ ext (trace w ++ [built None])%list (LoaderLoad loader) = Ok doc
     /\ log (snd run)
        = (log w ++ [mkLogRecord SUCCESS ("Document " ++ path ++ "sucessfully loaded.")])%list)
  /\ (forall e, fst run = Raise e ->
      log (snd run) = log w
      /\ (trace (snd run) = (trace w ++ [built (Some e)])%list
          \/ trace (snd run) = (trace w ++ [built None; loaded (Some e)])%list)).
Proof.
  intros loader built loaded run. subst run. rewrite load_docs_run. cbv zeta.
  fold loader.
  destruct (ext (trace w) (UnstructuredLoaderInit loader)) as [[]|e0].
  - cbn [observed trace].
    destruct (ext (trace w ++ [_])%list (LoaderLoad loader)) as [doc0|e0] eqn:Hload.
    + split; [|discriminate]. intros doc [= <-]. cbn. rewrite <- app_assoc. auto.
    + split; [discriminate|]. intros e [= <-]. cbn. rewrite <- app_assoc. auto.
  - split; [discriminate|]. intros e [= <-]. cbn. auto.
Qed.

Lemma load_docs_logs_only_success_witness :
  let failed := mkExn ConnectionError "service unreachable" in
  length (log (snd (load_docs Scenario.obliging FILE_PATH Scenario.fresh))) = 1%nat
  /\ log (snd (load_docs (Scenario.failing_load failed) FILE_PATH Scenario.fresh)) = [].
Proof.
  intros failed. split.
  - rewrite (proj2 (proj2 (proj1 (load_docs_logs_only_success Scenario.obliging
                                    FILE_PATH Scenario.fresh)
                             [PDoc Scenario.chunk_A; PDoc Scenario.chunk_B] eq_refl))).
    reflexivity.
  - apply (proj2 (load_docs_logs_only_success (Scenario.failing_load failed)
                    FILE_PATH Scenario.fresh) failed eq_refl).
Defined.

(** ** [add_doc] *)

(** X4. Which record [add_doc] writes for a caught exception: the
    first [except] clause whose class the exception is an instance of
    decides, so an instance of [ValueError] (also of a subclass such as
    [UnicodeError]) gets the document-list message, then [TypeError],
    then [ConnectionError]; every other exception derived from
    [Exception] gets the "unexpected" message, the only one that names
    the file. The file name is the [filename] metadata of the first
    document, printed as [None] when the key is absent. *)
Theorem add_doc_logs_by_exception_class ext vs (d : Document) rest ids w e :
  let doc := PDoc d :: rest in
  let file_name := str (dict_get (metadata d) "filename" SNone) in
  let message :=
    if isinstance e ValueError
    then "There's an error while handling the document list: " ++ exn_str e
    else if isinstance e TypeError
    then "Type error while handling document list: " ++ exn_str e
    else if isinstance e ConnectionError
    then "Connection error while communicating with Vector Store: " ++ exn_str e
    else "Unexpected error ocurred whhile adding document " ++ file_name ++ ": "
           ++ exn_str e in
  ext (trace w) (AddDocuments vs doc ids) = Raise e ->
  isinstance e Exception = true ->
  log (snd (add_doc ext vs doc ids w)) = (log w ++ [mkLogRecord ERROR message])%list
  /\ (metadata d !! "filename" = None -> file_name = "None").
Proof.
  intros doc file_name message Hraise HE. subst doc. split.
  - unfold add_doc, try_except, bind, call, getitem0, getattr_metadata, ret.
    rewrite Hraise. cbn [List.find catches raised handler]. subst message.
    destruct (isinstance e ValueError); [reflexivity|].
    destruct (isinstance e TypeError); [reflexivity|].
    destruct (isinstance e ConnectionError); [reflexivity|].
    rewrite HE. reflexivity.
  - intros Hnone. subst file_name. unfold dict_get. now rewrite Hnone.
Qed.

Lemma add_doc_logs_by_exception_class_witness :
  let undecodable := mkExn UnicodeError "invalid start byte" in
  let library_error := mkExn (Derived "RequestsConnectionError" OSError) "max retries" in
  let nameless := mkDocument "text" ∅ in
  log (snd (add_doc (Scenario.failing_insert undecodable) Scenario.a_store
              [PDoc Scenario.chunk_A] ["id-1"] Scenario.fresh))
  = [mkLogRecord ERROR
       "There's an error while handling the document list: invalid start byte"]
  /\ log (snd (add_doc (Scenario.failing_insert library_error) Scenario.a_store
                 [PDoc nameless] ["id-1"] Scenario.fresh))
     = [mkLogRecord ERROR
          "Unexpected error ocurred whhile adding document None: max retries"].
Proof.
  intros undecodable library_error nameless. split.
  - apply (proj1 (add_doc_logs_by_exception_class
                    (Scenario.failing_insert undecodable) Scenario.a_store
                    Scenario.chunk_A [] ["id-1"] Scenario.fresh undecodable
                    eq_refl eq_refl)).
  - apply (proj1 (add_doc_logs_by_exception_class
                    (Scenario.failing_insert library_error) Scenario.a_store
                    nameless [] ["id-1"] Scenario.fresh library_error
                    eq_refl eq_refl)).
Defined.

(** X5. [add_doc] reads [doc[0].metadata] before its [try] block. On
    an empty list, or a list whose first element is not a document, it
    raises ([IndexError], [AttributeError]: both derived from
    [Exception], yet not caught) without asking for any insertion and
    without logging; otherwise it asks for exactly one insertion of the
    list and the identifiers as given, whatever their lengths. *)
Theorem add_doc_inserts_only_behind_a_document ext vs ids w :
  add_doc ext vs [] ids w = (Raise (mkExn IndexError "list index out of range"), w)
  /\ isinstance (mkExn IndexError "list index out of range") Exception = true
  /\ (forall v rest,
        add_doc ext vs (PVal v :: rest) ids w = (Raise (no_attribute v "metadata"), w)
        /\ isinstance (no_attribute v "metadata") Exception = true)
  /\ (forall d rest,
        exists x,
          trace (snd (add_doc ext vs (PDoc d :: rest) ids w))
          = (trace w ++ [mkEvent (AddDocuments vs (PDoc d :: rest) ids) x])%list).
Proof.
  split; [apply add_doc_empty|]. split; [reflexivity|]. split.
  - intros v rest. split; [apply add_doc_not_a_document | reflexivity].
  - intros d rest.
    pose proof (add_doc_run ext vs d rest ids w) as Hrun. cbv zeta in Hrun.
    exists (raised (ext (trace w) (AddDocuments vs (PDoc d :: rest) ids))).
    destruct (ext (trace w) _) as [r|e].
    + now rewrite Hrun.
    + destruct (isinstance e Exception).
      * destruct Hrun as [prefix ->]. reflexivity.
      * now rewrite Hrun.
Qed.

(** ** [generate_answer_with_gpt4] *)

Lemma entries_stop_at_non_document (pre : list Document) v rest w :
  comprehension page_entry (map PDoc pre ++ PVal v :: rest)%list w
  = (Raise (no_attribute v "metadata"), w).
Proof.
  induction pre as [|d pre IH]; cbn [map app comprehension].
  - reflexivity.
  - rewrite (bind_ok _ _ _ _ _ (page_entry_document d w)).
    unfold bind at 1. now rewrite IH.
Qed.

(** X6. When the retrieved list holds something that is not a
    document, [generate_answer_with_gpt4] raises the [AttributeError]
    of the first such element while it assembles the context: no
    generation request is issued and the world is left as it was. *)
Theorem generate_answer_rejects_non_document ext query (pre : list Document) v rest w :
  generate_answer_with_gpt4 ext query (map PDoc pre ++ PVal v :: rest)%list w
  = (Raise (mkExn AttributeError
              ("'" ++ type_name_of v ++ "' object has no attribute 'metadata'")), w).
Proof.
  unfold generate_answer_with_gpt4, build_context.
  unfold bind at 1 2. now rewrite entries_stop_at_non_document.
Qed.

(** X7. After its single request, [generate_answer_with_gpt4] reads
    [choices[0]] without a guard: a reply without choices raises
    [IndexError], and a first choice without content makes the function
    return [None]; in both cases nothing is asked again. *)
Theorem generate_answer_reads_first_choice_unguarded ext query (docs : list Document) w :
  let req := Spec.generation_request (Spec.context_of docs) query in
  let run := generate_answer_with_gpt4 ext query (map PDoc docs) w in
  (ext (trace w) req = Ok (mkChatCompletion []) ->
   run = (Raise (mkExn IndexError "list index out of range"),
          observed (mkEvent req None) w))
  /\ (forall rest,
        ext (trace w) req
        = Ok (mkChatCompletion (mkChoice (mkChatCompletionMessage SNone) :: rest)) ->
        run = (Ok SNone, observed (mkEvent req None) w)).
Proof.
  intros req run. subst run. rewrite generate_answer_run. cbv zeta. fold req.
  split; [intros H | intros rest H]; now rewrite H.
Qed.

Lemma generate_answer_reads_first_choice_unguarded_witness :
  fst (generate_answer_with_gpt4 Scenario.choiceless query_model
         (map PDoc [Scenario.chunk_A]) Scenario.fresh)
  = Raise (mkExn IndexError "list index out of range").
Proof.
  rewrite (proj1 (generate_answer_reads_first_choice_unguarded Scenario.choiceless
                    query_model [Scenario.chunk_A] Scenario.fresh) eq_refl).
  reflexivity.
Defined.

Lemma join_app sep (l1 l2 : list string) :
  l1 <> [] -> l2 <> [] ->
  join sep (l1 ++ l2)%list = join sep l1 ++ sep ++ join sep l2.
Proof.
  intros H1 H2. induction l1 as [|p l1 IH]; [congruence|].
  destruct l1 as [|q l1].
  - destruct l2 as [|r l2]; [congruence|]. reflexivity.
  - change (p ++ sep ++ join sep ((q :: l1) ++ l2)%list
            = (p ++ sep ++ join sep (q :: l1)) ++ sep ++ join sep l2).
    rewrite IH by discriminate. now rewrite !append_assoc.
Qed.

(** X8. Contexts compose: the context of two non-empty runs of
    documents, one after the other, is the first context, a blank
    line, and the second context; so the context never begins or ends
    with a separator, and the context of no documents is empty. *)
Theorem build_context_app (a b : list Document) w ca cb :
  a <> [] -> b <> [] ->
  build_context (map PDoc a) w = (Ok ca, w) ->
  build_context (map PDoc b) w = (Ok cb, w) ->
  build_context (map PDoc (a ++ b)%list) w = (Ok (ca ++ newline ++ newline ++ cb), w)
  /\ build_context [] w = (Ok "", w).
Proof.
  intros Ha Hb Hca Hcb. split; [|reflexivity].
  unfold build_context in *.
  rewrite (bind_ok _ _ _ _ _ (entries_of_documents a w)) in Hca.
  rewrite (bind_ok _ _ _ _ _ (entries_of_documents b w)) in Hcb.
  rewrite (bind_ok _ _ _ _ _ (entries_of_documents (a ++ b)%list w)).
  unfold ret in *. injection Hca as <-. injection Hcb as <-.
  rewrite map_app, join_app; [reflexivity | |]; now destruct a, b.
Qed.

Lemma build_context_app_witness :
  let a := [Scenario.chunk_B] in
  let b := [Scenario.chunk_A] in
  build_context (map PDoc (a ++ b)%list) Scenario.fresh
  = (Ok ("Page 5: Balance sheet" ++ newline ++ newline ++ "Page 1: Annual report"),
     Scenario.fresh).
Proof.
  intros a b.
  apply (proj1 (build_context_app a b Scenario.fresh
                  "Page 5: Balance sheet" "Page 1: Annual report"
                  ltac:(discriminate) ltac:(discriminate) eq_refl eq_refl)).
Defined.

(** ** The order of requests in the script *)

Lemma silent_bind {A B} (m : M A) (k : A -> M B) :
  silent m -> (forall a, silent (k a)) -> silent (bind m k).
Proof.
  intros Hm Hk w. unfold bind. specialize (Hm w).
  destruct (m w) as [[a|e] w1]; cbn [snd] in *; [|exact Hm].
  now rewrite Hk.
Qed.

Lemma silent_ret {A} (a : A) : silent (ret a).
Proof. now intros w. Qed.

Lemma silent_raise {A} e : silent (@raise A e).
Proof. now intros w. Qed.

Lemma silent_emit l msg : silent (emit l msg).
Proof. now intros w. Qed.

Lemma silent_environ_getitem key : silent (environ_getitem key).
Proof. intros w. unfold environ_getitem. now destruct (environ w !! key). Qed.

Lemma silent_environ_contains key : silent (environ_contains key).
Proof. now intros w. Qed.

Lemma silent_environ_setitem key v : silent (environ_setitem key v).
Proof. now intros w. Qed.

Lemma silent_set_openai_api_key v : silent (set_openai_api_key v).
Proof. now intros w. Qed.

Lemma silent_getitem0 {A} (l : list A) : silent (getitem0 l).
Proof. intros w. now destruct l. Qed.

Lemma silent_getattr_metadata o : silent (getattr_metadata o).
Proof. intros w. now destruct o. Qed.

Lemma silent_getattr_page_content o : silent (getattr_page_content o).
Proof. intros w. now destruct o. Qed.

Lemma silent_comprehension {A B} (f : A -> M B) (l : list A) :
  (forall x, silent (f x)) -> silent (comprehension f l).
Proof.
  intros Hf. induction l as [|x l IH]; cbn [comprehension]; [apply silent_ret|].
  apply silent_bind; [apply Hf | intros y].
  apply silent_bind; [apply IH | intros ys; apply silent_ret].
Qed.

Ltac solve_silent :=
  repeat first
    [ apply silent_ret | apply silent_raise | apply silent_emit
    | apply silent_environ_getitem | apply silent_environ_contains
    | apply silent_environ_setitem | apply silent_set_openai_api_key
    | apply silent_getitem0 | apply silent_getattr_metadata
    | apply silent_getattr_page_content
    | apply silent_comprehension; intros ?
    | apply silent_bind; [|intros ?]
    | lazymatch goal with
      | |- silent (if ?b then _ else _) => destruct b
      end ].

Lemma conforming_silent {A} s (m : M A) : silent m -> emits m (conforming s).
Proof.
  intros Hm w. exists []. rewrite app_nil_r. split; [apply Hm|].
  unfold conforming. cbn. eauto.
Qed.

Lemma conforming_silent_bind {A B} s (m : M A) (k : A -> M B) :
  silent m ->
  (forall a, emits (k a) (conforming s)) ->
  emits (bind m k) (conforming s).
Proof.
  intros Hm Hk w. unfold bind. specialize (Hm w).
  destruct (m w) as [[a|e] w1]; cbn [fst snd] in *.
  - destruct (Hk a w1) as (evs & Ht & H). exists evs. now rewrite Ht, Hm.
  - exists []. rewrite app_nil_r. split; [exact Hm|]. unfold conforming. cbn. eauto.
Qed.

Lemma conforming_call_bind {B} s s' ext r (k : Reply r -> M B) :
  may_follow s r = true ->
  reached r = Some s' ->
  (forall a, emits (k a) (conforming s')) ->
  emits (bind (call ext r) k) (conforming s).
Proof.
  intros Hfollow Hreached Hk w. unfold bind, call.
  destruct (ext (trace w) r) as [a|e]; cbn [raised fst snd].
  - destruct (Hk a (observed (mkEvent r None) w)) as (evs & Ht & H).
    exists (mkEvent r None :: evs). rewrite Ht. cbn [observed trace].
    rewrite <- app_assoc. split; [reflexivity|].
    unfold conforming in *. cbn [conforms]. unfold advance. cbn [ev_req ev_exn].
    now rewrite Hfollow, Hreached.
  - exists [mkEvent r (Some e)]. split; [reflexivity|].
    unfold conforming. cbn [conforms]. unfold advance. cbn [ev_req ev_exn].
    rewrite Hfollow. eauto.
Qed.

Lemma emits_bind_assoc {A B C} (m : M A) (f : A -> M B) (g : B -> M C) Q :
  emits (bind m (fun x => bind (f x) g)) Q -> emits (bind (bind m f) g) Q.
Proof.
  intros H w. specialize (H w). unfold bind in *.
  destruct (m w) as [[a|e] w1]; [|exact H].
  destruct (f a w1) as [[b|e] w2]; exact H.
Qed.

(** The draws of entropy keep the run where the store was built. *)
Lemma conforming_draws_bind {B} ext (l : list nat) (k : list string -> M B) :
  (forall ids, emits (k ids) (conforming StoreBuilt)) ->
  emits (bind (comprehension (fun _ : nat => u <- uuid4 ext ;; ret (str_uuid u)) l) k)
        (conforming StoreBuilt).
Proof.
  revert k. induction l as [|x l IH]; intros k Hk; cbn [comprehension].
  - apply conforming_silent_bind; [apply silent_ret | exact Hk].
  - unfold uuid4 at 1.
    do 3 apply emits_bind_assoc.
    apply (conforming_call_bind StoreBuilt StoreBuilt); [reflexivity..|]. intros rnd.
    apply conforming_silent_bind; [apply silent_ret|]. intros u.
    apply conforming_silent_bind; [apply silent_ret|]. intros y.
    apply emits_bind_assoc. apply IH. intros ys.
    apply conforming_silent_bind; [apply silent_ret|]. intros ids. apply Hk.
Qed.

(** [add_doc] returns only after its insertion request. *)
Lemma add_doc_ok_events ext vs doc ids w v w' :
  add_doc ext vs doc ids w = (Ok v, w') ->
  exists x, trace w' = (trace w ++ [mkEvent (AddDocuments vs doc ids) x])%list.
Proof.
  intros H. destruct doc as [|[d|y] rest].
  - rewrite add_doc_empty in H. discriminate H.
  - pose proof (add_doc_run ext vs d rest ids w) as Hrun. cbv zeta in Hrun.
    exists (raised (ext (trace w) (AddDocuments vs (PDoc d :: rest) ids))).
    destruct (ext (trace w) _) as [r|e].
    + rewrite Hrun in H. now injection H as <- <-.
    + destruct (isinstance e Exception).
      * destruct Hrun as [prefix Hrun]. rewrite Hrun in H. now injection H as <- <-.
      * rewrite Hrun in H. discriminate H.
  - rewrite add_doc_not_a_document in H. discriminate H.
Qed.

Lemma conforming_add_doc_bind {B} ext vs doc ids (k : scalar -> M B) :
  (forall a, emits (k a) (conforming Inserted)) ->
  emits (bind (add_doc ext vs doc ids) k) (conforming StoreBuilt).
Proof.
  intros Hk w. unfold bind.
  destruct (add_doc ext vs doc ids w) as [[v|e] w1] eqn:Hrun.
  - destruct (add_doc_ok_events _ _ _ _ _ _ _ Hrun) as [x Ht1].
    destruct (Hk v w1) as (evs & Ht & H).
    exists (mkEvent (AddDocuments vs doc ids) x :: evs).
    rewrite Ht, Ht1, <- app_assoc. split; [reflexivity|].
    unfold conforming in *. cbn [conforms]. unfold advance. cbn.
    now destruct x.
  - destruct (add_doc_events ext vs doc ids w) as (evs & Ht & Hevs).
    rewrite Hrun in Ht. exists evs. split; [exact Ht|].
    unfold conforming. destruct Hevs as [->|[x ->]]; cbn; [eauto|].
    unfold advance. cbn. destruct x; cbn; eauto.
Qed.

(** Follow a program statement by statement. *)
Ltac conforming_step :=
  lazymatch goal with
  | |- emits (bind (bind _ _) _) _ => apply emits_bind_assoc
  | |- emits (bind (call _ _) _) _ =>
      eapply conforming_call_bind; [reflexivity | reflexivity | intros ?]
  | |- emits (bind (add_doc _ _ _ _) _) _ => apply conforming_add_doc_bind; intros ?
  | |- emits (bind (comprehension _ _) _) _ =>
      first [ apply conforming_draws_bind; intros ?
            | apply conforming_silent_bind; [solve [solve_silent] | intros ?] ]
  | |- emits (bind (if ?b then _ else _) _) _ => destruct b; cbn [negb]
  | |- emits (bind _ _) _ =>
      apply conforming_silent_bind; [solve [solve_silent] | intros ?]
  | |- emits _ _ => apply conforming_silent; solve [solve_silent]
  end.

Ltac conforming_walk := repeat conforming_step.

(** Every run of the script conforms to the pipeline. *)
Lemma main_conforms ext : emits (main ext) (conforming Start).
Proof.
  unfold main, load_dotenv, setdefault_env, check_keys, load_docs, set_embeddings,
    generate_answer_with_gpt4, build_context, page_entry, logger_info, logger_success.
  cbv zeta. conforming_walk.
Qed.

Lemma conforms_app s evs1 evs2 :
  conforms s (evs1 ++ evs2)%list
  = match conforms s evs1 with
    | Some s' => conforms s' evs2
    | None => None
    end.
Proof.
  revert s. induction evs1 as [|ev evs1 IH]; intros s; cbn; [reflexivity|].
  destruct (advance s ev); [apply IH | reflexivity].
Qed.

(** What one accepted event says about its stage. *)
Lemma advance_stage s ev s' :
  advance s ev = Some s' ->
  (least_stage_from s <= stage (ev_req ev))%nat
  /\ (least_stage_from s <= least_stage_from s')%nat
  /\ ((stage (ev_req ev) < least_stage_from s')%nat
      \/ (is_draw (ev_req ev) = true /\ stage (ev_req ev) = least_stage_from s')).
Proof.
  destruct ev as [r x]. unfold advance. cbn [ev_req ev_exn].
  destruct (may_follow s r) eqn:Hfollow; [|discriminate].
  unfold may_follow in Hfollow.
  destruct r; cbn [reached stage is_draw is_insertion] in *;
    try (destruct (String.eqb prompt _); [|destruct (String.eqb prompt _)]);
    destruct s; try discriminate Hfollow;
    destruct x; intros [= <-]; cbn; lia.
Qed.

Lemma conforms_stage_above evs : forall s,
  is_Some (conforms s evs) ->
  forall ev, ev ∈ evs -> (least_stage_from s <= stage (ev_req ev))%nat.
Proof.
  induction evs as [|ev0 evs IH]; intros s Hacc ev Hin.
  - now apply elem_of_nil in Hin.
  - cbn [conforms] in Hacc. destruct (advance s ev0) as [s'|] eqn:Hadv;
      [|now destruct Hacc].
    apply advance_stage in Hadv as (Hlow & Hmono & _).
    apply elem_of_cons in Hin as [->|Hin]; [exact Hlow|].
    specialize (IH s' Hacc ev Hin). lia.
Qed.

Lemma stage_of_draw r : stage r = 10%nat -> is_draw r = true.
Proof.
  destruct r; cbn; try discriminate; try reflexivity.
  destruct (String.eqb prompt _); [discriminate|].
  destruct (String.eqb prompt _); discriminate.
Qed.

(** X9. The requests of a run of the script come in the order of the
    pipeline (environment file, prompts, loader, load, embedding
    client, index client, collection, vector store, identifiers,
    insertion, search, generation), and only draws of entropy repeat:
    loading, collection creation, insertion, search and generation are
    each requested at most once, so nothing is ever retried. *)
Theorem script_requests_follow_the_pipeline ext w pre a mid b post :
  trace (snd (main ext w)) = (trace w ++ pre ++ a :: mid ++ b :: post)%list ->
  (stage (ev_req a) <= stage (ev_req b))%nat
  /\ (stage (ev_req a) = stage (ev_req b) ->
      is_draw (ev_req a) = true /\ is_draw (ev_req b) = true).
Proof.
  intros Htrace.
  destruct (main_conforms ext w) as (evs & Hevs & Hacc).
  rewrite Hevs in Htrace. apply app_inv_head in Htrace. subst evs.
  unfold conforming in Hacc. rewrite conforms_app in Hacc.
  destruct (conforms Start pre) as [s|]; [|now destruct Hacc].
  cbn [conforms] in Hacc. destruct (advance s a) as [s'|] eqn:Hadv;
    [|now destruct Hacc].
  apply advance_stage in Hadv as (_ & _ & Ha).
  assert (least_stage_from s' <= stage (ev_req b))%nat as Hb.
  { apply (conforms_stage_above _ s' Hacc). apply elem_of_app. right. now left. }
  destruct Ha as [Ha|[Hdraw Ha]]; [split; lia|].
  split; [lia|]. intros Heq. split; [exact Hdraw|].
  apply stage_of_draw.
  assert (stage (ev_req a) = 10%nat); [|lia].
  clear -Hdraw. destruct (ev_req a); try discriminate Hdraw. reflexivity.
Qed.

Lemma script_requests_follow_the_pipeline_witness :
  let evs := trace (snd (main Scenario.obliging Scenario.fresh)) in
  let loader := mkUnstructuredLoader FILE_PATH "hi_res" true true in
  let zero := "00000000-0000-4000-8000-000000000000" in
  let a := mkEvent (LoaderLoad loader) None in
  let b := mkEvent (AddDocuments Scenario.a_store
                      [PDoc Scenario.chunk_A; PDoc Scenario.chunk_B] [zero; zero]) None in
  evs = (take 2 evs ++ a :: take 6 (drop 3 evs) ++ b :: drop 10 evs)%list
  /\ (stage (ev_req a) <= stage (ev_req b))%nat.
Proof.
  intros evs loader zero a b. split; [reflexivity|].
  apply (script_requests_follow_the_pipeline Scenario.obliging Scenario.fresh
           (take 2 evs) a (take 6 (drop 3 evs)) b (drop 10 evs)).
  reflexivity.
Defined.

Lemma conforms_last pre : forall s0 s,
  conforms s0 pre = Some s ->
  (pre = [] /\ s = s0)
  \/ exists pre' last s1,
       pre = (pre' ++ [last])%list
       /\ conforms s0 pre' = Some s1
       /\ advance s1 last = Some s.
Proof.
  induction pre as [|last pre' _] using rev_ind; intros s0 s H.
  - left. now injection H.
  - right. rewrite conforms_app in H.
    destruct (conforms s0 pre') as [s1|] eqn:H1; [|discriminate H].
    cbn [conforms] in H. destruct (advance s1 last) as [s2|] eqn:H2; [|discriminate H].
    injection H as <-. eauto 10.
Qed.

(** What the last event was, from the phase it left the run in. *)
Lemma advance_into s1 last s :
  advance s1 last = Some s ->
  s <> Stopped ->
  (ev_exn last = None /\ reached (ev_req last) = Some s)
  \/ (is_insertion (ev_req last) = true /\ s = Inserted).
Proof.
  unfold advance. destruct (may_follow s1 (ev_req last)); [|discriminate].
  destruct (ev_exn last) as [e|]; [|now left].
  destruct (is_insertion (ev_req last)); intros [= <-] Hs; [now right | congruence].
Qed.

Lemma phase_before ev s s' :
  advance s ev = Some s' -> may_follow s (ev_req ev) = true.
Proof. unfold advance. now destruct (may_follow s (ev_req ev)). Qed.

Ltac reached_cases r H :=
  destruct r; cbn [reached is_insertion is_draw] in H |- *;
  try (repeat match type of H with
              | context [String.eqb ?p ?q] => destruct (String.eqb p q)
              end);
  try discriminate H; eauto.

Lemma reached_searched r :
  reached r = Some Searched -> exists vs query k, r = SimilaritySearch vs query k.
Proof. intros H. reached_cases r H. Qed.

Lemma reached_inserted r :
  reached r = Some Inserted -> exists vs d i, r = AddDocuments vs d i.
Proof. intros H. reached_cases r H. Qed.

Lemma reached_loaded r :
  reached r = Some Loaded -> exists loader, r = LoaderLoad loader.
Proof. intros H. reached_cases r H. Qed.

Lemma reached_store_built r :
  reached r = Some StoreBuilt ->
  is_draw r = true \/ exists vs, r = QdrantVectorStoreInit vs.
Proof. intros H. reached_cases r H. Qed.

Lemma is_insertion_inv r :
  is_insertion r = true -> exists vs d i, r = AddDocuments vs d i.
Proof. intros H. reached_cases r H. Qed.

(** X10. In a run of the script each stage is entered directly after
    the stage before it: a generation request comes directly after a
    similarity search that returned; a search directly after the
    insertion request (whether that one returned or raised an
    exception that was caught); the insertion directly after the store
    was built or an identifier was drawn; and the embedding client is
    built directly after a load that returned. *)
Theorem each_stage_directly_follows_the_previous ext w pre ev post :
  trace (snd (main ext w)) = (trace w ++ pre ++ ev :: post)%list ->
  (forall model messages max_tokens temperature,
      ev_req ev = ChatCompletionsCreate model messages max_tokens temperature ->
      exists pre' vs query k,
        pre = (pre' ++ [mkEvent (SimilaritySearch vs query k) None])%list)
  /\ (forall vs query k,
      ev_req ev = SimilaritySearch vs query k ->
      exists pre' vs' documents ids x,
        pre = (pre' ++ [mkEvent (AddDocuments vs' documents ids) x])%list)
  /\ (forall vs documents ids,
      ev_req ev = AddDocuments vs documents ids ->
      exists pre' r,
        pre = (pre' ++ [mkEvent r None])%list
        /\ (is_draw r = true \/ exists vs', r = QdrantVectorStoreInit vs'))
  /\ (forall embeddings,
      ev_req ev = JinaEmbeddingsInit embeddings ->
      exists pre' loader, pre = (pre' ++ [mkEvent (LoaderLoad loader) None])%list).
Proof.
  intros Htrace.
  destruct (main_conforms ext w) as (evs & Hevs & Hacc).
  rewrite Hevs in Htrace. apply app_inv_head in Htrace. subst evs.
  unfold conforming in Hacc. rewrite conforms_app in Hacc.
  destruct (conforms Start pre) as [s|] eqn:Hpre; [|now destruct Hacc].
  cbn [conforms] in Hacc. destruct (advance s ev) as [s'|] eqn:Hadv;
    [|now destruct Hacc].
  apply phase_before in Hadv. clear Hacc.
  assert (forall s0, s = s0 -> s0 <> Start -> s0 <> Stopped ->
            exists pre' last,
              pre = (pre' ++ [last])%list
              /\ ((ev_exn last = None /\ reached (ev_req last) = Some s0)
                  \/ (is_insertion (ev_req last) = true /\ s0 = Inserted))) as Hlast.
  { intros s0 <- Hstart Hstopped.
    destruct (conforms_last _ _ _ Hpre) as [[_ ->]|(pre' & last & s1 & -> & _ & Hl)];
      [congruence|].
    exists pre', last. split; [reflexivity|]. now apply advance_into in Hl. }
  repeat split.
  - intros model messages max_tokens temperature Hreq. rewrite Hreq in Hadv.
    destruct s; try discriminate Hadv.
    destruct (Hlast Searched eq_refl) as (pre' & [r x] & -> & [[Hx Hr]|[_ Hs]]);
      try discriminate.
    cbn [ev_req ev_exn] in Hx, Hr. subst x.
    apply reached_searched in Hr as (vs & query & k & ->). eauto.
  - intros vs query k Hreq. rewrite Hreq in Hadv.
    destruct s; try discriminate Hadv.
    destruct (Hlast Inserted eq_refl) as (pre' & [r x] & -> & [[Hx Hr]|[Hr _]]);
      try discriminate; cbn [ev_req ev_exn] in Hr.
    + apply reached_inserted in Hr as (vs' & d & i & ->). eauto 10.
    + apply is_insertion_inv in Hr as (vs' & d & i & ->). eauto 10.
  - intros vs documents ids Hreq. rewrite Hreq in Hadv.
    destruct s; try discriminate Hadv.
    destruct (Hlast StoreBuilt eq_refl) as (pre' & [r x] & -> & [[Hx Hr]|[_ Hs]]);
      try discriminate.
    cbn [ev_req ev_exn] in Hx, Hr. subst x. exists pre', r. split; [reflexivity|].
    now apply reached_store_built.
  - intros embeddings Hreq. rewrite Hreq in Hadv.
    destruct s; try discriminate Hadv.
    destruct (Hlast Loaded eq_refl) as (pre' & [r x] & -> & [[Hx Hr]|[_ Hs]]);
      try discriminate.
    cbn [ev_req ev_exn] in Hx, Hr. subst x.
    apply reached_loaded in Hr as (loader & ->). eauto.
Qed.

Lemma each_stage_directly_follows_the_previous_witness :
  let refused := mkExn TypeError "not a document" in
  let evs := trace (snd (main (Scenario.failing_insert refused) Scenario.fresh)) in
  exists pre' vs' documents ids x,
    take 10 evs = (pre' ++ [mkEvent (AddDocuments vs' documents ids) x])%list.
Proof.
  intros refused evs.
  apply (proj1 (proj2 (each_stage_directly_follows_the_previous
                         (Scenario.failing_insert refused) Scenario.fresh
                         (take 10 evs)
                         (mkEvent (SimilaritySearch Scenario.a_store query_model 3) None)
                         (drop 11 evs) eq_refl))
           Scenario.a_store query_model 3).
  reflexivity.
Defined.

(** ** What the script hands to the insertion *)

Lemma emits_u_bind_with {A B} P (HP : uniform P) (R : A -> Prop)
  (m : M A) (k : A -> M B) :
  (forall w a w', m w = (Ok a, w') -> R a) ->
  emits_u m P ->
  (forall a, R a -> emits_u (k a) P) ->
  emits_u (bind m k) P.
Proof.
  intros HR Hm Hk w. destruct (Hm w) as (evs1 & Ht1 & HP1).
  unfold bind. destruct (m w) as [[a|e] w1] eqn:Hrun; cbn [fst snd raised] in *.
  - destruct (Hk a (HR _ _ _ Hrun) w1) as (evs2 & Ht2 & HP2).
    exists (evs1 ++ evs2)%list. rewrite Ht2, Ht1, app_assoc.
    split; [reflexivity | now apply (uniform_app P HP)].
  - now exists evs1.
Qed.

Lemma ids_match_documents_uniform : uniform ids_match_documents.
Proof.
  split.
  - intros r ev vs d i Hin. now apply elem_of_nil in Hin.
  - intros evs1 evs2 r H1 H2 ev vs d i Hin Hreq.
    apply elem_of_app in Hin as [Hin|Hin]; [eapply H1 | eapply H2]; eassumption.
Qed.

Lemma ids_match_other r x y :
  is_insertion r = false -> ids_match_documents y [mkEvent r x].
Proof.
  intros Hr ev vs d i Hin Hreq. apply list_elem_of_singleton in Hin as ->.
  cbn in Hreq. subst r. discriminate Hr.
Qed.

Lemma add_doc_ids_match ext vs doc ids :
  length ids = length doc ->
  emits_u (add_doc ext vs doc ids) ids_match_documents.
Proof.
  intros Hlen w. destruct (add_doc_events ext vs doc ids w) as (evs & Ht & Hevs).
  exists evs. split; [exact Ht|].
  intros ev vs' d i Hin Hreq.
  destruct Hevs as [->|[x ->]]; [now apply elem_of_nil in Hin|].
  apply list_elem_of_singleton in Hin as ->. cbn in Hreq. now injection Hreq as -> -> ->.
Qed.

Lemma set_embeddings_length ext doc name w a w' :
  set_embeddings ext doc name w = (Ok a, w') -> length (snd a) = length doc.
Proof.
  destruct a as [vs ids]. intros H.
  destruct (set_embeddings_ok _ _ _ _ _ _ _ H) as (key & draws & _ & _ & Hlen & -> & _).
  cbn [snd]. now rewrite length_map.
Qed.

Lemma main_ids_match ext : emits_u (main ext) ids_match_documents.
Proof.
  unfold main. 
  emits_u_walk ids_match_documents_uniform
    ltac:(intros; apply ids_match_other; reflexivity)
    ltac:(first
      [ lazymatch goal with
        | |- emits_u (bind (set_embeddings ?ext ?doc ?name) _) _ =>
            apply (emits_u_bind_with _ ids_match_documents_uniform
                     (fun a => length (snd a) = length doc));
            [ intros ? ? ?; apply set_embeddings_length
            | unfold set_embeddings, uuid4, logger_info, logger_success
            | intros ? ?; cbv zeta ]
        | |- emits_u (add_doc _ _ _ _) _ => apply add_doc_ids_match; assumption
        | |- emits_u (load_dotenv _) _ => unfold load_dotenv, setdefault_env
        | |- emits_u (check_keys _) _ => unfold check_keys
        | |- emits_u (load_docs _ _) _ => unfold load_docs
        | |- emits_u (generate_answer_with_gpt4 _ _ _) _ =>
            unfold generate_answer_with_gpt4, build_context, page_entry
        end ]).
Qed.

(** X11. Whatever the outside world answers, an insertion requested by
    the script carries exactly as many identifiers as documents: the
    precondition of [add_documents] on the two lengths is met by
    construction, since [set_embeddings] draws one identifier per
    element of the document list it is given and the script passes
    both on unchanged. *)
Theorem script_inserts_one_identifier_per_document
  ext w pre post vs documents ids x :
  trace (snd (main ext w))
  = (trace w ++ pre ++ mkEvent (AddDocuments vs documents ids) x :: post)%list ->
  length ids = length documents.
Proof.
  intros Htrace.
  destruct (main_ids_match ext w) as (evs & Hevs & Hall).
  rewrite Hevs in Htrace. apply app_inv_head in Htrace. subst evs.
  apply (Hall (mkEvent (AddDocuments vs documents ids) x) vs documents ids);
    [|reflexivity].
  apply elem_of_app. right. now left.
Qed.

Lemma script_inserts_one_identifier_per_document_witness :
  let zero := "00000000-0000-4000-8000-000000000000" in
  length [zero; zero] = length [PDoc Scenario.chunk_A; PDoc Scenario.chunk_B].
Proof.
  intros zero.
  apply (script_inserts_one_identifier_per_document
           Scenario.obliging Scenario.fresh
           (take 9 (trace (snd (main Scenario.obliging Scenario.fresh))))
           (drop 10 (trace (snd (main Scenario.obliging Scenario.fresh))))
           Scenario.a_store [PDoc Scenario.chunk_A; PDoc Scenario.chunk_B]
           [zero; zero] None).
  reflexivity.
Defined.

(** ** The script without the embedding key *)












(** ** The plotting helpers *)

Section PlotFacts.

Import Plot.
Local Open Scope plot_scope.

Context {num : Type} `{Arith num}.
Variable lib : Library num.

Lemma draws_bind {A B} (m : D num A) (k : A -> D num B) Q1 Q :
  draws m Q1 ->
  (forall a evs1, Q1 (Ok a) evs1 ->
     draws (k a) (fun o evs2 => Q o (evs1 ++ evs2)%list)) ->
  (forall e evs1, Q1 (Raise e) evs1 -> Q (Raise e) evs1) ->
  draws (dbind m k) Q.
Proof.
  intros Hm Hk He h. destruct (Hm h) as (evs1 & Ht & HQ). unfold dbind.
  destruct (m h) as [[a|e] h1]; cbn [fst snd] in *.
  - subst h1. destruct (Hk a evs1 HQ (h ++ evs1)%list) as (evs2 & Ht2 & HQ2).
    exists (evs1 ++ evs2)%list. rewrite Ht2, app_assoc. now split.
  - exists evs1. eauto.
Qed.

Lemma draws_call c :
  draws (dcall lib c) (fun o evs => evs = [mkStep c (raised o)]).
Proof. intros h. eexists. split; reflexivity. Qed.

Lemma draws_weaken {A} (m : D num A) (Q Q' : Outcome A -> list (Step num) -> Prop) :
  (forall o evs, Q o evs -> Q' o evs) -> draws m Q -> draws m Q'.
Proof.
  intros HQ Hm h. destruct (Hm h) as (evs & Ht & Hq). exists evs. auto.
Qed.

Lemma draws_quiet {A} (m : D num A) o :
  quiet m o -> draws m (fun o' evs => o' = o /\ evs = []).
Proof.
  intros Hm h. exists []. rewrite (Hm h), app_nil_r. now split.
Qed.

Lemma dbind_getitem_Some {A B} key (a : A) (k : A -> D num B) h :
  dbind (getitem key (Some a)) k h = k a h.
Proof. reflexivity. Qed.

Lemma dbind_quiet {A B} (m : D num A) o (k : A -> D num B) h :
  quiet m o ->
  dbind m k h = match o with Ok a => k a h | Raise e => (Raise e, h) end.
Proof. intros Hm. unfold dbind. now rewrite Hm. Qed.

(** *** The points of a box *)

Lemma scaled_point_quiet pix segment point :
  exists o, quiet (scaled_point pix segment point) o
    /\ (forall q, o = Ok q ->
        exists c, seg_coordinates segment = Some c
                  /\ is_Some (layout_width c) /\ is_Some (layout_height c)).
Proof.
  unfold quiet, scaled_point, dbind, dlift, getitem, dret.
  destruct (mul (fst point) (width pix)) as [xw|e];
    [|eexists; split; [reflexivity | discriminate]].
  destruct (seg_coordinates segment) as [c|] eqn:Hc;
    [|eexists; split; [reflexivity | discriminate]].
  destruct (layout_width c) as [lw|] eqn:Hlw;
    [|eexists; split; [reflexivity | discriminate]].
  destruct (truediv xw lw) as [sx|e];
    [|eexists; split; [reflexivity | discriminate]].
  destruct (mul (snd point) (height pix)) as [yh|e];
    [|eexists; split; [reflexivity | discriminate]].
  destruct (layout_height c) as [lh|] eqn:Hlh;
    [|eexists; split; [reflexivity | discriminate]].
  destruct (truediv yh lh) as [sy|e];
    [|eexists; split; [reflexivity | discriminate]].
  eexists; split; [reflexivity|]. intros q _. exists c.
  rewrite Hlw, Hlh. split; [reflexivity | split; eexists; reflexivity].
Qed.

Lemma scaled_points_quiet pix segment pts :
  exists o, quiet (dcomprehension (scaled_point pix segment) pts) o
    /\ (forall sp, o = Ok sp ->
        length sp = length pts
        /\ (pts <> [] ->
            exists c, seg_coordinates segment = Some c
                      /\ is_Some (layout_width c) /\ is_Some (layout_height c))).
Proof.
  induction pts as [|pt pts (o & Hq & Ho)].
  - exists (Ok []). split; [intros h; reflexivity|].
    intros sp [= <-]. now split.
  - destruct (scaled_point_quiet pix segment pt) as (o1 & Hq1 & Ho1).
    destruct o1 as [q|e].
    + destruct o as [sp|e].
      * exists (Ok (q :: sp)). split.
        { intros h. cbn [dcomprehension]. unfold dbind, dret. now rewrite Hq1, Hq. }
        intros sp' [= <-]. destruct (Ho sp eq_refl) as [Hlen _].
        cbn [length]. split; [now rewrite Hlen|]. intros _. now apply (Ho1 q).
      * exists (Raise e). split; [|discriminate].
        intros h. cbn [dcomprehension]. unfold dbind, dret. now rewrite Hq1, Hq.
    + exists (Raise e). split; [|discriminate].
      intros h. cbn [dcomprehension]. unfold dbind. now rewrite Hq1.
Qed.

(** *** One box *)

Lemma draw_segment_run pix categories segment h :
  (exists poly cat,
      draw_segment lib pix categories segment h
      = (Ok (categories ∪ {[ cat ]}),
         (h ++ [mkStep (NewPolygon poly) None; mkStep (AddPatch poly) None])%list)
      /\ drawn_as segment poly /\ seg_category segment = Some cat)
  \/ (exists e, draw_segment lib pix categories segment h = (Raise e, h))
  \/ (exists e poly,
        draw_segment lib pix categories segment h
        = (Raise e, (h ++ [mkStep (NewPolygon poly) (Some e)])%list))
  \/ (exists e poly,
        draw_segment lib pix categories segment h
        = (Raise e, (h ++ [mkStep (NewPolygon poly) None;
                           mkStep (AddPatch poly) (Some e)])%list)
        /\ drawn_as segment poly).
Proof.
  unfold draw_segment.
  destruct (seg_coordinates segment) as [c|] eqn:Hc;
    [rewrite dbind_getitem_Some | right; left; eexists; reflexivity].
  destruct (points c) as [pts|] eqn:Hpts;
    [rewrite dbind_getitem_Some | right; left; eexists; reflexivity].
  destruct (scaled_points_quiet pix segment pts) as (o & Hq & Ho).
  rewrite (dbind_quiet _ o _ h Hq).
  destruct o as [sp|e]; [|right; left; eexists; reflexivity].
  destruct (Ho sp eq_refl) as [Hlen Hlayout].
  destruct (seg_category segment) as [cat|] eqn:Hcat;
    [rewrite !dbind_getitem_Some | right; left; eexists; reflexivity].
  set (poly := mkPolygon sp 1 (get category_to_color cat "deepskyblue") "none").
  assert (drawn_as segment poly) as Hdrawn.
  { exists c, pts, cat.
    split; [exact Hc|]. split; [exact Hpts|]. split; [exact Hcat|]. split.
    { intros Hne. destruct (Hlayout Hne) as (c' & Hc' & Hw & Hh).
      rewrite Hc in Hc'. injection Hc' as <-. now split. }
    split; [exact Hlen|]. split; [reflexivity|]. split; reflexivity. }
  unfold dbind, dcall, dret.
  destruct (lib h (NewPolygon poly)) as [[]|e]; cbn [raised].
  - destruct (lib _ (AddPatch poly)) as [[]|e]; cbn [raised]; rewrite <- app_assoc.
    + left. exists poly, cat. now split.
    + right; right; right. exists e, poly. now split.
  - right; right; left. now exists e, poly.
Qed.

(** *** All boxes *)

Lemma added_app (evs1 evs2 : list (Step num)) :
  added (evs1 ++ evs2) = (added evs1 ++ added evs2)%list.
Proof. apply omap_app. Qed.

Lemma boxes_run pix : forall segments categories h,
  exists evs,
    snd (for_each segments (draw_segment lib pix) categories h) = (h ++ evs)%list
    /\ in_phase 2 evs
    /\ Forall2 drawn_as (take (length (added evs)) segments) (added evs)
    /\ (forall categories',
          fst (for_each segments (draw_segment lib pix) categories h) = Ok categories' ->
          none_raised evs
          /\ length (added evs) = length segments
          /\ categories' = categories ∪ list_to_set (omap seg_category segments)).
Proof.
  induction segments as [|segment rest IH]; intros categories h.
  - exists []. cbn. rewrite app_nil_r. split; [reflexivity|].
    split; [constructor|]. split; [constructor|].
    intros categories' Heq. inversion Heq; subst.
    split; [constructor|]. split; [reflexivity|].
    cbn. now rewrite union_empty_r_L.
  - cbn [for_each]. unfold dbind.
    destruct (draw_segment_run pix categories segment h)
      as [(poly & cat & -> & Hdrawn & Hcat)
         |[(e & ->)|[(e & poly & ->)|(e & poly & -> & Hdrawn)]]].
    + destruct (IH (categories ∪ {[ cat ]})
                   (h ++ [mkStep (NewPolygon poly) None; mkStep (AddPatch poly) None])%list)
        as (evs & Ht & Hph & Hshape & Hok).
      exists ([mkStep (NewPolygon poly) None; mkStep (AddPatch poly) None] ++ evs)%list.
      rewrite Ht, app_assoc. split; [reflexivity|].
      split; [apply Forall_app; split; [repeat constructor | exact Hph]|].
      rewrite added_app.
      replace (added [mkStep (NewPolygon poly) None; mkStep (AddPatch poly) None])
        with [poly] by reflexivity.
      cbn [app length take].
      split; [now constructor|].
      intros categories' Hrun. destruct (Hok categories' Hrun) as (Hret & Hlen & ->).
      split; [constructor; [reflexivity|]; constructor; [reflexivity | exact Hret]|].
      split; [now rewrite Hlen|].
      cbn. rewrite Hcat. cbn. now rewrite (assoc_L (∪)).
    + exists []. cbn. rewrite app_nil_r. split; [reflexivity|].
      split; [constructor|]. split; [constructor | discriminate].
    + exists [mkStep (NewPolygon poly) (Some e)]. cbn. split; [reflexivity|].
      split; [repeat constructor|]. split; [constructor | discriminate].
    + exists [mkStep (NewPolygon poly) None; mkStep (AddPatch poly) (Some e)].
      cbn. split; [reflexivity|]. split; [repeat constructor|].
      split; [repeat constructor; exact Hdrawn | discriminate].
Qed.

(** *** The legend and the display *)

Lemma add_handle_run categories acc c h :
  add_handle lib categories acc c h
  = if bool_decide (c ∈ categories) then
      match category_to_color !! c with
      | None => (Raise (mkExn KeyError (repr_str c)), h)
      | Some col =>
          match lib h (NewPatch (mkPatch col c)) with
          | Ok _ => (Ok (acc ++ [mkPatch col c])%list,
                     (h ++ [mkStep (NewPatch (mkPatch col c)) None])%list)
          | Raise e => (Raise e, (h ++ [mkStep (NewPatch (mkPatch col c)) (Some e)])%list)
          end
      end
    else (Ok acc, h).
Proof.
  unfold add_handle. destruct (bool_decide (c ∈ categories)); [|reflexivity].
  destruct (category_to_color !! c) as [col|]; [|reflexivity].
  rewrite dbind_getitem_Some. unfold dbind, dcall, dret.
  destruct (lib h (NewPatch (mkPatch col c))) as [[]|e]; reflexivity.
Qed.

Lemma handles_run categories : forall cs acc h,
  Forall (fun c => is_Some (category_to_color !! c)) cs ->
  exists evs,
    snd (for_each cs (add_handle lib categories) acc h) = (h ++ evs)%list
    /\ Forall (fun s => exists p, the_call s = NewPatch p) evs
    /\ (forall hs,
          fst (for_each cs (add_handle lib categories) acc h) = Ok hs ->
          none_raised evs
          /\ hs = (acc ++ flat_map (fun c =>
                     if bool_decide (c ∈ categories)
                     then [mkPatch (get category_to_color c "deepskyblue") c]
                     else []) cs)%list).
Proof.
  induction cs as [|c cs IH]; intros acc h Hcs.
  - exists []. cbn. rewrite !app_nil_r. split; [reflexivity|].
    split; [constructor|]. intros hs Heq. inversion Heq; subst.
    split; [constructor | reflexivity].
  - apply Forall_cons in Hcs as [[col Hcol] Hcs].
    cbn [for_each flat_map]. unfold dbind. rewrite add_handle_run.
    unfold get. rewrite Hcol. cbn [default].
    destruct (bool_decide (c ∈ categories)).
    + destruct (lib h (NewPatch (mkPatch col c))) as [[]|e].
      * destruct (IH (acc ++ [mkPatch col c])%list
                     (h ++ [mkStep (NewPatch (mkPatch col c)) None])%list Hcs)
          as (evs & Ht & Hnew & Hok).
        exists (mkStep (NewPatch (mkPatch col c)) None :: evs).
        rewrite Ht, <- app_assoc. split; [reflexivity|].
        split; [constructor; [now eexists | exact Hnew]|].
        intros hs Hrun. destruct (Hok hs Hrun) as [Hret ->].
        split; [now constructor | now rewrite <- app_assoc].
      * exists [mkStep (NewPatch (mkPatch col c)) (Some e)]. cbn.
        split; [reflexivity|]. split; [repeat constructor; now eexists | discriminate].
    + destruct (IH acc h Hcs) as (evs & Ht & Hnew & Hok).
      exists evs. split; [exact Ht|]. split; [exact Hnew|].
      intros hs Hrun. destruct (Hok hs Hrun) as [Hret ->]. now split.
Qed.

Lemma occurs_spec c (segments : list (Segment num)) :
  bool_decide (c ∈ (∅ ∪ list_to_set (omap seg_category segments) : gset string))
  = occurs c segments.
Proof.
  unfold occurs. rewrite union_empty_l_L.
  destruct (existsb _ segments) eqn:Hex.
  - apply bool_decide_eq_true_2. apply existsb_exists in Hex as (s & Hin & Hs).
    apply bool_decide_eq_true_1 in Hs.
    apply elem_of_list_to_set, list_elem_of_omap. exists s.
    split; [now apply list_elem_of_In | exact Hs].
  - apply bool_decide_eq_false_2. intros Hin.
    apply elem_of_list_to_set, list_elem_of_omap in Hin as (s & Hin & Hs).
    assert (existsb (fun s => bool_decide (seg_category s = Some c)) segments = true) as Hyes.
    { apply existsb_exists. exists s.
      split; [now apply list_elem_of_In | now apply bool_decide_eq_true_2]. }
    rewrite Hyes in Hex. discriminate Hex.
Qed.

Lemma handles_legend (segments : list (Segment num)) :
  ([mkPatch "deepskyblue" "Text"]
   ++ flat_map (fun c =>
        if bool_decide (c ∈ (∅ ∪ list_to_set (omap seg_category segments) : gset string))
        then [mkPatch (get category_to_color c "deepskyblue") c]
        else []) ["Title"; "Image"; "Table"])%list
  = legend_of segments.
Proof.
  unfold legend_of. cbn [flat_map]. rewrite !occurs_spec.
  destruct (occurs "Title" segments), (occurs "Image" segments),
    (occurs "Table" segments); reflexivity.
Qed.

Lemma colors_known :
  Forall (fun c => is_Some (category_to_color !! c)) ["Title"; "Image"; "Table"].
Proof. repeat constructor; eexists; reflexivity. Qed.

Lemma added_none (evs : list (Step num)) :
  Forall (fun s => phase (the_call s) <> 2%nat) evs -> added evs = [].
Proof.
  induction 1 as [|s evs Hs _ IH]; [reflexivity|].
  unfold added in *. cbn. rewrite IH.
  destruct (the_call s); try reflexivity; now destruct Hs.
Qed.

Lemma early_phase (c : Call num) :
  early c = true -> (1 <= phase c <= 3)%nat.
Proof. destruct c; cbn; (discriminate || lia). Qed.

Lemma pictured_early {A} segments e (evs : list (Step num)) :
  Forall (fun s => early (the_call s) = true) evs ->
  Forall2 drawn_as (take (length (added evs)) segments) (added evs) ->
  pictured segments (Raise e : Outcome A) evs.
Proof.
  intros Hearly Hshape. rewrite Forall_forall in Hearly.
  split; [exact Hshape|]. split.
  { intros handles loc x Hin. apply Hearly in Hin. discriminate Hin. }
  split.
  { intros x Hin. apply Hearly in Hin. discriminate Hin. }
  split; [discriminate|].
  apply Forall_forall. intros s Hin. apply early_phase, Hearly, Hin.
Qed.

Lemma pictured_late {A} segments (o : Outcome A) (pre post : list (Step num)) :
  Forall (fun s => early (the_call s) = true) pre ->
  Forall2 drawn_as segments (added pre) ->
  Forall (fun s => the_call s = Legend (legend_of segments) "upper right"
                   \/ the_call s = TightLayout \/ the_call s = PltShow) post ->
  (forall x, mkStep PltShow x ∈ post ->
             mkStep (Legend (legend_of segments) "upper right") None ∈ post) ->
  (forall a, o = Ok a -> none_raised (pre ++ post) /\ mkStep PltShow None ∈ post) ->
  pictured segments o (pre ++ post).
Proof.
  intros Hearly Hshape Hlate Hshow Hok.
  assert (added (pre ++ post) = added pre) as Hadded.
  { rewrite added_app, (added_none post), app_nil_r; [reflexivity|].
    eapply Forall_impl; [exact Hlate|]. cbn. intros s [->|[->| ->]]; discriminate. }
  assert (length (added pre) = length segments) as Hlen
    by (symmetry; eapply Forall2_length, Hshape).
  rewrite Forall_forall in Hearly. rewrite Forall_forall in Hlate.
  split.
  { rewrite Hadded, Hlen, firstn_all. exact Hshape. }
  split.
  { intros handles loc x Hin. rewrite Hadded.
    apply elem_of_app in Hin as [Hin|Hin].
    - apply Hearly in Hin. discriminate Hin.
    - apply Hlate in Hin. cbn in Hin.
      destruct Hin as [Heq|[Heq|Heq]]; try discriminate Heq.
      injection Heq as -> ->. auto. }
  split.
  { intros x Hin. apply elem_of_app in Hin as [Hin|Hin].
    - apply Hearly in Hin. discriminate Hin.
    - exists (legend_of segments), "upper right".
      apply elem_of_app. right. apply (Hshow x Hin). }
  split.
  { intros a Ha. destruct (Hok a Ha) as [Hret Hin]. split; [exact Hret|].
    apply elem_of_app. now right. }
  apply Forall_forall. intros s Hin. apply elem_of_app in Hin as [Hin|Hin].
  - apply early_phase, Hearly, Hin.
  - apply Hlate in Hin. destruct Hin as [->|[->| ->]]; cbn; lia.
Qed.

Lemma boxes_draws pix segments categories :
  draws (for_each segments (draw_segment lib pix) categories)
    (fun o evs =>
       in_phase 2 evs
       /\ Forall2 drawn_as (take (length (added evs)) segments) (added evs)
       /\ (forall categories', o = Ok categories' ->
             none_raised evs
             /\ length (added evs) = length segments
             /\ categories' = categories ∪ list_to_set (omap seg_category segments))).
Proof. intros h. apply boxes_run. Qed.

Lemma handles_draws categories cs acc :
  Forall (fun c => is_Some (category_to_color !! c)) cs ->
  draws (for_each cs (add_handle lib categories) acc)
    (fun o evs =>
       Forall (fun s => exists p, the_call s = NewPatch p) evs
       /\ (forall hs, o = Ok hs ->
             none_raised evs
             /\ hs = (acc ++ flat_map (fun c =>
                        if bool_decide (c ∈ categories)
                        then [mkPatch (get category_to_color c "deepskyblue") c]
                        else []) cs)%list)).
Proof. intros Hcs h. now apply handles_run. Qed.

Lemma early_boxes (evs : list (Step num)) :
  in_phase 2 evs -> Forall (fun s => early (the_call s) = true) evs.
Proof.
  intros Hev. eapply Forall_impl; [exact Hev|]. cbn.
  intros s Hs. destruct (the_call s); try discriminate Hs; reflexivity.
Qed.

Lemma early_new_patches (evs : list (Step num)) :
  Forall (fun s => exists p, the_call s = NewPatch p) evs ->
  Forall (fun s => early (the_call s) = true) evs.
Proof. intros Hev. eapply Forall_impl; [exact Hev|]. cbn. now intros s [p ->]. Qed.

Lemma new_patches_no_box (evs : list (Step num)) :
  Forall (fun s => exists p, the_call s = NewPatch p) evs ->
  Forall (fun s => phase (the_call s) <> 2%nat) evs.
Proof. intros Hev. eapply Forall_impl; [exact Hev|]. cbn. now intros s [p ->]. Qed.

Ltac all_early :=
  repeat (apply Forall_app; split);
  first [ apply early_boxes; assumption
        | apply early_new_patches; assumption
        | repeat constructor ].

Ltac no_box :=
  first [ apply new_patches_no_box; assumption
        | repeat (constructor; [discriminate|]); constructor ].

Ltac added_only_boxes :=
  rewrite ?added_app;
  repeat match goal with
         | |- context [added ?X] => rewrite (added_none X) by no_box
         end;
  cbn [app]; rewrite ?app_nil_r.

Ltac early_side :=
  apply pictured_early;
  [ all_early
  | added_only_boxes; first [ assumption | constructor ] ].

Ltac all_late :=
  cbn [app]; repeat (constructor; [cbn; auto|]); constructor.

Ltac no_show Hin :=
  cbn [app] in Hin;
  repeat (apply elem_of_cons in Hin as [Hin|Hin]; [discriminate Hin|]);
  now apply elem_of_nil in Hin.

Ltac late_side :=
  apply pictured_late;
  [ all_early
  | added_only_boxes; assumption
  | all_late
  | |].

Lemma plot_pictured pdf_page segments :
  draws (plot_pdf_with_boxes lib pdf_page segments) (pictured segments).
Proof.
  unfold plot_pdf_with_boxes.
  eapply draws_bind; [apply draws_call | | intros e evs ->; early_side].
  intros pix evs1 ->. cbn [raised].
  eapply draws_bind; [apply draws_call | | intros e evs ->; early_side].
  intros [] evs2 ->. cbn [raised].
  eapply draws_bind; [apply draws_call | | intros e evs ->; early_side].
  intros [] evs3 ->. cbn [raised].
  eapply draws_bind; [apply draws_call | | intros e evs ->; early_side].
  intros [] evs4 ->. cbn [raised].
  eapply draws_bind;
    [apply boxes_draws | | intros e evs (Hph & Hshape & _); early_side].
  intros categories evs5 (Hph & Hshape & Hok).
  destruct (Hok categories eq_refl) as (Hret & Hlen & ->).
  pose proof Hshape as Hfull. rewrite Hlen, firstn_all in Hfull. clear Hok.
  eapply draws_bind; [apply draws_call | | intros e evs ->; early_side].
  intros [] evs6 ->. cbn [raised].
  eapply draws_bind;
    [apply (handles_draws _ _ _ colors_known) | | intros e evs (Hnew & _); early_side].
  intros hs evs7 (Hnew & Hok). destruct (Hok hs eq_refl) as (Hret7 & ->).
  rewrite handles_legend. clear Hok.
  eapply draws_bind; [apply draws_call | | intros e evs ->; early_side].
  intros [] evs8 ->. cbn [raised].
  eapply draws_weaken;
    [intros o evs Hp; rewrite !app_assoc; exact Hp|].
  eapply draws_bind; [apply draws_call | |].
  2: { intros e evs ->. late_side; [intros x Hin; no_show Hin | discriminate]. }
  intros [] evs9 ->. cbn [raised].
  eapply draws_bind; [apply draws_call | |].
  2: { intros e evs ->. late_side; [intros x Hin; no_show Hin | discriminate]. }
  intros [] evs10 ->. cbn [raised].
  eapply draws_weaken; [|apply draws_call].
  intros o evs ->. late_side.
  - intros x _. repeat constructor.
  - intros [] ->. cbn [raised]. split; [|repeat constructor].
    repeat (apply Forall_app; split);
      first [assumption | repeat constructor].
Qed.

(** X13. Whenever [plot_pdf_with_boxes] requests the legend, its
    handles are: "Text" in deepskyblue first, always, whether or not
    any box is drawn in that colour and even for an empty list of
    segments; then "Title" (orchid), "Image" (forestgreen) and "Table"
    (tomato), in this order, each exactly when some segment has that
    category. The legend therefore depends neither on the order of the
    segments nor on how often a category occurs. It is placed upper
    right. *)
Theorem legend_lists_text_then_the_categories_present
  pdf_page segments h evs handles loc x :
  snd (plot_pdf_with_boxes lib pdf_page segments h) = (h ++ evs)%list ->
  mkStep (Legend handles loc) x ∈ evs ->
  handles = legend_of segments /\ loc = "upper right".
Proof.
  intros Hrun Hin. destruct (plot_pictured pdf_page segments h) as (evs' & Hevs & Hp).
  rewrite Hevs in Hrun. apply app_inv_head in Hrun. subst evs'.
  destruct Hp as (_ & Hlegend & _). destruct (Hlegend _ _ _ Hin) as (-> & -> & _).
  now split.
Qed.

Lemma plot_run pdf_page segments h evs :
  snd (plot_pdf_with_boxes lib pdf_page segments h) = (h ++ evs)%list ->
  pictured segments (fst (plot_pdf_with_boxes lib pdf_page segments h)) evs.
Proof.
  intros Hrun. destruct (plot_pictured pdf_page segments h) as (evs' & Hevs & Hp).
  rewrite Hevs in Hrun. apply app_inv_head in Hrun. now subst evs'.
Qed.

Lemma color_in_legend (segments : list (Segment num)) segment cat :
  segment ∈ segments -> seg_category segment = Some cat ->
  exists p, p ∈ legend_of segments
            /\ color p = get category_to_color cat "deepskyblue".
Proof.
  intros Hin Hcat.
  assert (occurs cat segments = true) as Hocc.
  { apply existsb_exists. exists segment.
    split; [now apply list_elem_of_In | now apply bool_decide_eq_true_2]. }
  unfold legend_of.
  destruct (decide (cat = "Title")) as [->|HT].
  { exists (mkPatch "orchid" "Title"). rewrite Hocc. split; [|reflexivity].
    apply elem_of_app. right. apply elem_of_app. left. constructor. }
  destruct (decide (cat = "Image")) as [->|HI].
  { exists (mkPatch "forestgreen" "Image"). rewrite Hocc. split; [|reflexivity].
    apply elem_of_app. right. apply elem_of_app. right.
    apply elem_of_app. left. constructor. }
  destruct (decide (cat = "Table")) as [->|HTb].
  { exists (mkPatch "tomato" "Table"). rewrite Hocc. split; [|reflexivity].
    apply elem_of_app. right. apply elem_of_app. right.
    apply elem_of_app. right. constructor. }
  exists (mkPatch "deepskyblue" "Text"). split.
  { apply elem_of_app. left. constructor. }
  unfold get, category_to_color.
  rewrite lookup_insert_ne by congruence. rewrite lookup_insert_ne by congruence.
  rewrite lookup_singleton_ne by congruence. reflexivity.
Qed.

Lemma legend_entry_occurs (segments : list (Segment num)) p :
  p ∈ legend_of segments ->
  label p = "Text"
  \/ exists segment, segment ∈ segments /\ seg_category segment = Some (label p).
Proof.
  assert (forall cat, occurs cat segments = true ->
            exists segment, segment ∈ segments /\ seg_category segment = Some cat) as Hocc.
  { intros cat Hcat. apply existsb_exists in Hcat as (segment & Hin & Hs).
    exists segment. split; [now apply list_elem_of_In|].
    now apply bool_decide_eq_true_1 in Hs. }
  unfold legend_of. intros Hin.
  apply elem_of_app in Hin as [Hin|Hin].
  { apply list_elem_of_singleton in Hin as ->. now left. }
  right. apply elem_of_app in Hin as [Hin|Hin].
  { destruct (occurs "Title" segments) eqn:Ho; [|now apply elem_of_nil in Hin].
    apply list_elem_of_singleton in Hin as ->. now apply Hocc. }
  apply elem_of_app in Hin as [Hin|Hin].
  { destruct (occurs "Image" segments) eqn:Ho; [|now apply elem_of_nil in Hin].
    apply list_elem_of_singleton in Hin as ->. now apply Hocc. }
  destruct (occurs "Table" segments) eqn:Ho; [|now apply elem_of_nil in Hin].
  apply list_elem_of_singleton in Hin as ->. now apply Hocc.
Qed.

(** X14. The legend covers the drawing: when the legend is requested,
    the edge colour of every polygon handed to [add_patch] is the
    colour of some legend entry, and every legend entry other than
    "Text" names the category of some segment. Segments of any other
    category (or of category "Text") are drawn in deepskyblue and fall
    under the entry "Text". *)
Theorem legend_covers_the_boxes pdf_page segments h evs handles loc x :
  snd (plot_pdf_with_boxes lib pdf_page segments h) = (h ++ evs)%list ->
  mkStep (Legend handles loc) x ∈ evs ->
  (forall poly, poly ∈ added evs ->
     exists p, p ∈ handles /\ color p = edgecolor poly)
  /\ (forall p, p ∈ handles ->
        label p = "Text"
        \/ exists segment, segment ∈ segments /\ seg_category segment = Some (label p)).
Proof.
  intros Hrun Hin. destruct (plot_run _ _ _ _ Hrun) as (Hshape & Hlegend & _).
  destruct (Hlegend _ _ _ Hin) as (-> & _ & Hlen).
  rewrite Hlen, firstn_all in Hshape. split.
  - intros poly Hpoly. apply list_elem_of_lookup in Hpoly as [i Hi].
    destruct (Forall2_lookup_r _ _ _ _ _ Hshape Hi) as (segment & Hs & Hdrawn).
    destruct Hdrawn as (c & pts & cat & _ & _ & Hcat & _ & _ & _ & Hcolor & _).
    rewrite Hcolor. apply (color_in_legend segments segment); [|exact Hcat].
    eapply list_elem_of_lookup_2, Hs.
  - apply legend_entry_occurs.
Qed.

(** X15. The polygons handed to [add_patch] are, in order, the boxes
    of the first segments: the i-th polygon has one vertex per point of
    the i-th segment, line width 1, no fill, and the colour of that
    segment's category (deepskyblue for a category that is not "Title",
    "Image" or "Table"). This holds of every run, also of one that
    raises half-way; there are never more polygons than segments, and
    by the time the legend is requested every segment has its polygon. *)
Theorem boxes_follow_the_segments pdf_page segments h evs :
  snd (plot_pdf_with_boxes lib pdf_page segments h) = (h ++ evs)%list ->
  (length (added evs) <= length segments)%nat
  /\ Forall2 drawn_as (take (length (added evs)) segments) (added evs)
  /\ (forall handles loc x,
        mkStep (Legend handles loc) x ∈ evs ->
        length (added evs) = length segments).
Proof.
  intros Hrun. destruct (plot_run _ _ _ _ Hrun) as (Hshape & Hlegend & _).
  split; [|split; [exact Hshape|]].
  - apply Forall2_length in Hshape. rewrite length_take in Hshape. lia.
  - intros handles loc x Hin. now destruct (Hlegend _ _ _ Hin) as (_ & _ & Hlen).
Qed.

(** X16. The figure is shown only if every segment is complete. If
    [plt.show] is requested, then every segment has its coordinates,
    its points and its category (and its layout size, if it has a
    point), and the legend was requested before and returned: one
    segment without a category anywhere in the list means that nothing
    is shown at all, although the boxes of the segments before it have
    been added. If the function returns, [plt.show] was requested and
    returned, and so did every other call. *)
Theorem figure_is_shown_only_for_complete_segments pdf_page segments h evs :
  snd (plot_pdf_with_boxes lib pdf_page segments h) = (h ++ evs)%list ->
  (forall x, mkStep PltShow x ∈ evs ->
     Forall complete segments
     /\ mkStep (Legend (legend_of segments) "upper right") None ∈ evs)
  /\ (forall a, fst (plot_pdf_with_boxes lib pdf_page segments h) = Ok a ->
        mkStep PltShow None ∈ evs /\ none_raised evs).
Proof.
  intros Hrun. destruct (plot_run _ _ _ _ Hrun) as (Hshape & Hlegend & Hshow & Hok & _).
  split.
  - intros x Hin. destruct (Hshow x Hin) as (handles & loc & Hl).
    destruct (Hlegend _ _ _ Hl) as (-> & -> & Hlen). split; [|exact Hl].
    rewrite Hlen, firstn_all in Hshape.
    apply Forall_forall. intros segment Hs.
    apply list_elem_of_lookup in Hs as [i Hi].
    destruct (Forall2_lookup_l _ _ _ _ _ Hshape Hi) as (poly & _ & Hdrawn).
    destruct Hdrawn as (c & pts & cat & Hc & Hpts & Hcat & Hlayout & _).
    now exists c, pts, cat.
  - intros a Ha. destruct (Hok a Ha) as [Hret Hin]. now split.
Qed.

(** *** [render_page] *)

Lemma printed_app (evs1 evs2 : list (Step num)) :
  printed (evs1 ++ evs2) = (printed evs1 ++ printed evs2)%list.
Proof. apply omap_app. Qed.

Lemma printed_none (evs : list (Step num)) :
  Forall (fun s => phase (the_call s) <> 4%nat) evs -> printed evs = [].
Proof.
  induction 1 as [|s evs Hs _ IH]; [reflexivity|].
  unfold printed in *. cbn. rewrite IH.
  destruct (the_call s); try reflexivity; now destruct Hs.
Qed.

Lemma print_step (doc : Element num) docs h :
  for_each (doc :: docs) (fun _ doc => dcall lib (PyPrint (element_text doc ++ newline))) tt h
  = match lib h (PyPrint (element_text doc ++ newline)) with
    | Ok _ =>
        for_each docs (fun _ doc => dcall lib (PyPrint (element_text doc ++ newline))) tt
          (h ++ [mkStep (PyPrint (element_text doc ++ newline)) None])%list
    | Raise e =>
        (Raise e, (h ++ [mkStep (PyPrint (element_text doc ++ newline)) (Some e)])%list)
    end.
Proof.
  cbn [for_each]. unfold dbind. cbv beta.
  destruct (dcall lib (PyPrint (element_text doc ++ newline)) h) as [o h'] eqn:Hc.
  unfold dcall in Hc. injection Hc as <- <-.
  destruct (lib h (PyPrint (element_text doc ++ newline))) as [[]|e]; reflexivity.
Qed.

Lemma prints_run : forall (docs : list (Element num)) h,
  exists evs,
    snd (for_each docs (fun _ doc => dcall lib (PyPrint (element_text doc ++ newline))) tt h)
    = (h ++ evs)%list
    /\ in_phase 4 evs
    /\ (exists n, printed evs = take n (map shown_text docs))
    /\ (forall a,
          fst (for_each docs (fun _ doc => dcall lib (PyPrint (element_text doc ++ newline)))
                 tt h) = Ok a ->
          none_raised evs /\ printed evs = map shown_text docs).
Proof.
  induction docs as [|doc docs IH]; intros h.
  - exists []. cbn. rewrite app_nil_r. split; [reflexivity|]. split; [constructor|].
    split; [now exists 0%nat|]. intros _ _. split; [constructor | reflexivity].
  - rewrite print_step.
    destruct (lib h (PyPrint (element_text doc ++ newline))) as [[]|e].
    + destruct (IH (h ++ [mkStep (PyPrint (element_text doc ++ newline)) None])%list)
        as (evs & Ht & Hph & [n Hn] & Hok).
      exists (mkStep (PyPrint (element_text doc ++ newline)) None :: evs).
      rewrite Ht, <- app_assoc. split; [reflexivity|].
      split; [now constructor|]. split.
      { exists (S n). change (printed (?s :: evs)) with (shown_text doc :: printed evs).
        now rewrite Hn. }
      intros a Ha. destruct (Hok a Ha) as [Hret Hall].
      split; [now constructor|].
      change (printed (?s :: evs)) with (shown_text doc :: printed evs).
      now rewrite Hall.
    + exists [mkStep (PyPrint (element_text doc ++ newline)) (Some e)].
      cbn [fst snd]. split; [reflexivity|]. split; [repeat constructor|].
      split; [now exists 1%nat | discriminate].
Qed.

Lemma rendered_intro {A} file_path doc_list page print_text
  (o : Outcome A) (o' : Outcome unit) (pre mid post : list (Step num)) :
  Forall (fun s => the_call s = FitzOpen file_path
                   \/ the_call s = LoadPage file_path (page - 1)) pre ->
  pictured (map element_metadata (on_page page doc_list)) o' mid ->
  in_phase 4 post ->
  (exists n, printed post = take n (map shown_text (on_page page doc_list))) ->
  (post <> [] -> print_text = true /\ exists a, o' = Ok a) ->
  (forall a, o = Ok a ->
     (exists a', o' = Ok a') /\ none_raised pre /\ none_raised post
     /\ printed post = if print_text then map shown_text (on_page page doc_list) else []) ->
  rendered file_path doc_list page print_text o (pre ++ mid ++ post).
Proof.
  intros Hpre (Hshape & Hlegend & Hshow & Hok' & Hmid) Hpost Hprinted Hafter Hok.
  assert (added (pre ++ mid ++ post) = added mid) as Hadded.
  { rewrite !added_app, (added_none pre), (added_none post), app_nil_r; [reflexivity| |].
    - eapply Forall_impl; [exact Hpost|]. cbn. intros s ->. discriminate.
    - eapply Forall_impl; [exact Hpre|]. cbn. intros s [->| ->]; discriminate. }
  assert (printed (pre ++ mid ++ post) = printed post) as Hprints.
  { rewrite !printed_app, (printed_none pre), (printed_none mid); [reflexivity| |].
    - eapply Forall_impl; [exact Hmid|]. cbn. intros s Hs. lia.
    - eapply Forall_impl; [exact Hpre|]. cbn. intros s [->| ->]; discriminate. }
  rewrite Forall_forall in Hpre. rewrite Forall_forall in Hmid.
  unfold in_phase in Hpost. rewrite Forall_forall in Hpost.
  unfold rendered. cbv zeta. rewrite Hadded, Hprints.
  split; [exact Hshape|]. split.
  { intros handles loc x Hin. rewrite <- (length_map element_metadata).
    apply elem_of_app in Hin as [Hin|Hin].
    - apply Hpre in Hin. cbn in Hin. now destruct Hin.
    - apply elem_of_app in Hin as [Hin|Hin].
      + destruct (Hlegend _ _ _ Hin) as (-> & _ & Hlen). now split.
      + apply Hpost in Hin. discriminate Hin. }
  split; [exact Hprinted|]. split.
  { intros Hno. destruct post as [|s post]; [reflexivity|].
    destruct Hafter as [Hyes _]; [discriminate|]. congruence. }
  split.
  { intros Hsome. destruct post as [|s post]; [now destruct Hsome|].
    destruct Hafter as [_ [a Ha]]; [discriminate|].
    destruct (Hok' a Ha) as [_ Hin].
    apply elem_of_app. right. apply elem_of_app. now left. }
  split.
  { intros a Ha. destruct (Hok a Ha) as ([a' Ha'] & Hrpre & Hrpost & Hall).
    destruct (Hok' a' Ha') as [Hrmid Hin].
    split; [repeat (apply Forall_app; split); assumption|].
    split; [|exact Hall]. apply elem_of_app. right. apply elem_of_app. now left. }
  intros s Hin Hph. apply elem_of_app in Hin as [Hin|Hin]; [now apply Hpre|].
  apply elem_of_app in Hin as [Hin|Hin].
  - apply Hmid in Hin. lia.
  - apply Hpost in Hin. congruence.
Qed.

Lemma pictured_nothing {A} (segments : list (Segment num)) e :
  pictured segments (Raise e : Outcome A) [].
Proof. apply pictured_early; constructor. Qed.

Lemma render_rendered file_path doc_list page print_text :
  draws (render_page lib file_path doc_list page print_text)
        (rendered file_path doc_list page print_text).
Proof.
  unfold render_page.
  eapply draws_bind; [apply draws_call | |].
  2: { intros e evs ->. cbn [raised].
       apply (rendered_intro file_path doc_list page print_text (Raise e) (Raise e)
                [mkStep (FitzOpen file_path) (Some e)] [] []).
       - constructor; [now left | constructor].
       - apply pictured_nothing.
       - constructor.
       - now exists 0%nat.
       - intros Hne. now destruct Hne.
       - discriminate. }
  intros [] evs1 ->. cbn [raised].
  eapply draws_bind; [apply draws_call | |].
  2: { intros e evs ->. cbn [raised].
       apply (rendered_intro file_path doc_list page print_text (Raise e) (Raise e)
                [mkStep (FitzOpen file_path) None;
                 mkStep (LoadPage file_path (page - 1)) (Some e)] [] []).
       - constructor; [now left | constructor; [now right | constructor]].
       - apply pictured_nothing.
       - constructor.
       - now exists 0%nat.
       - intros Hne. now destruct Hne.
       - discriminate. }
  intros [] evs2 ->. cbn [raised]. cbv zeta.
  eapply draws_bind; [apply plot_pictured | |].
  2: { intros e mid Hp.
       replace mid with (mid ++ [])%list by apply app_nil_r.
       apply (rendered_intro file_path doc_list page print_text (Raise e) (Raise e)
                [mkStep (FitzOpen file_path) None;
                 mkStep (LoadPage file_path (page - 1)) None] mid []).
       - constructor; [now left | constructor; [now right | constructor]].
       - exact Hp.
       - constructor.
       - now exists 0%nat.
       - intros Hne. now destruct Hne.
       - discriminate. }
  intros [] mid Hp. destruct print_text.
  - intros h. destruct (prints_run (on_page page doc_list) h)
      as (post & Ht & Hph & Hn & Hok).
    exists post. split; [exact Ht|].
    apply (rendered_intro file_path doc_list page true _ (Ok tt)
             [mkStep (FitzOpen file_path) None;
              mkStep (LoadPage file_path (page - 1)) None] mid post).
    + constructor; [now left | constructor; [now right | constructor]].
    + exact Hp.
    + exact Hph.
    + exact Hn.
    + intros _. split; [reflexivity | now exists tt].
    + intros a Ha. destruct (Hok a Ha) as [Hret Hall].
      split; [now exists tt|]. split; [repeat constructor|]. now split.
  - intros h. exists []. cbn [dret fst snd]. rewrite app_nil_r. split; [reflexivity|].
    apply (rendered_intro file_path doc_list page false _ (Ok tt)
             [mkStep (FitzOpen file_path) None;
              mkStep (LoadPage file_path (page - 1)) None] mid []).
    + constructor; [now left | constructor; [now right | constructor]].
    + exact Hp.
    + constructor.
    + now exists 0%nat.
    + intros Hne. now destruct Hne.
    + intros a _. split; [now exists tt|]. split; [repeat constructor|].
      split; [constructor | reflexivity].
Qed.

(** X17. [render_page] prints, in the order of [doc_list], the text of
    the documents whose [page_number] equals the page asked for, each
    followed by a newline (to which [print] adds its own): what is
    printed is always an initial part of that sequence, and all of it
    when the function returns with [print_text] set. Documents of other
    pages, and documents without a page number, are never printed.
    With [print_text] unset nothing is printed. Nothing is printed
    before the figure was shown: the first [print] comes after
    [plt.show] returned. *)
Theorem render_page_prints_the_text_of_that_page
  file_path doc_list page print_text h evs :
  snd (render_page lib file_path doc_list page print_text h) = (h ++ evs)%list ->
  (exists n, printed evs = take n (map shown_text (on_page page doc_list)))
  /\ (print_text = false -> printed evs = [])
  /\ (printed evs <> [] -> mkStep PltShow None ∈ evs)
  /\ (forall a,
        fst (render_page lib file_path doc_list page print_text h) = Ok a ->
        print_text = true ->
        printed evs = map shown_text (on_page page doc_list)).
Proof.
  intros Hrun.
  destruct (render_rendered file_path doc_list page print_text h) as (evs' & Hevs & Hr).
  rewrite Hevs in Hrun. apply app_inv_head in Hrun. subst evs'.
  destruct Hr as (_ & _ & Hn & Hoff & Hshow & Hok & _).
  split; [exact Hn|]. split; [exact Hoff|]. split; [exact Hshow|].
  intros a Ha ->. now destruct (Hok a Ha) as (_ & _ & ->).
Qed.

(** X18. [render_page] opens [file_path] and loads the page with index
    [page_number - 1], and it draws that page's documents only: the
    polygons handed to [add_patch] are, in order, the boxes of the
    first documents whose [page_number] equals the page asked for, and
    a legend entry other than "Text" names the category of a document
    of that page. A document of another page, or one without a page
    number, is neither drawn nor counted in the legend. *)
Theorem render_page_draws_that_page_only
  file_path doc_list page print_text h evs :
  snd (render_page lib file_path doc_list page print_text h) = (h ++ evs)%list ->
  Forall2 drawn_as
    (take (length (added evs)) (map element_metadata (on_page page doc_list))) (added evs)
  /\ (forall handles loc x p,
        mkStep (Legend handles loc) x ∈ evs -> p ∈ handles ->
        label p = "Text"
        \/ exists doc, doc ∈ doc_list
                       /\ seg_page_number (element_metadata doc) = Some page
                       /\ seg_category (element_metadata doc) = Some (label p))
  /\ (forall s, s ∈ evs -> phase (the_call s) = 0%nat ->
        the_call s = FitzOpen file_path
        \/ the_call s = LoadPage file_path (page - 1)).
Proof.
  intros Hrun.
  destruct (render_rendered file_path doc_list page print_text h) as (evs' & Hevs & Hr).
  rewrite Hevs in Hrun. apply app_inv_head in Hrun. subst evs'.
  destruct Hr as (Hshape & Hlegend & _ & _ & _ & _ & Hopen).
  split; [exact Hshape|]. split; [|exact Hopen].
  intros handles loc x p Hin Hp. destruct (Hlegend _ _ _ Hin) as [-> _].
  destruct (legend_entry_occurs _ _ Hp) as [Htext|(segment & Hs & Hcat)]; [now left|].
  right. apply list_elem_of_fmap in Hs as (doc & -> & Hdoc).
  unfold on_page in Hdoc. apply list_elem_of_In, filter_In in Hdoc as [Hdoc Hpage].
  exists doc. split; [now apply list_elem_of_In|].
  split; [now apply bool_decide_eq_true_1 in Hpage | exact Hcat].
Qed.

End PlotFacts.

Lemma legend_lists_text_then_the_categories_present_witness :
  [Plot.mkPatch "deepskyblue" "Text"; Plot.mkPatch "orchid" "Title"]
  = Plot.legend_of [PlotScenario.heading; PlotScenario.paragraph]
  /\ "upper right" = "upper right".
Proof.
  apply (legend_lists_text_then_the_categories_present PlotScenario.answering
           PlotScenario.first_page [PlotScenario.heading; PlotScenario.paragraph] []
           (snd (Plot.plot_pdf_with_boxes PlotScenario.answering PlotScenario.first_page
                   [PlotScenario.heading; PlotScenario.paragraph] []))
           _ _ None).
  - reflexivity.
  - vm_compute. repeat constructor.
Defined.

Lemma legend_covers_the_boxes_witness :
  let segments := [PlotScenario.heading; PlotScenario.paragraph] in
  let evs := snd (Plot.plot_pdf_with_boxes PlotScenario.answering
                    PlotScenario.first_page segments []) in
  let handles := [Plot.mkPatch "deepskyblue" "Text"; Plot.mkPatch "orchid" "Title"] in
  (forall poly, poly ∈ Plot.added evs ->
     exists p, p ∈ handles /\ Plot.color p = Plot.edgecolor poly)
  /\ (forall p, p ∈ handles ->
        Plot.label p = "Text"
        \/ exists segment,
             segment ∈ segments /\ Plot.seg_category segment = Some (Plot.label p)).
Proof.
  intros segments evs handles.
  apply (legend_covers_the_boxes PlotScenario.answering PlotScenario.first_page
           segments [] evs handles "upper right" None).
  - reflexivity.
  - vm_compute. repeat constructor.
Defined.

Lemma boxes_follow_the_segments_witness :
  let segments := [PlotScenario.heading; PlotScenario.unlabelled; PlotScenario.figures] in
  let evs := snd (Plot.plot_pdf_with_boxes PlotScenario.answering
                    PlotScenario.first_page segments []) in
  (length (Plot.added evs) <= length segments)%nat
  /\ Forall2 Plot.drawn_as (take (length (Plot.added evs)) segments) (Plot.added evs)
  /\ (forall handles loc x,
        Plot.mkStep (Plot.Legend handles loc) x ∈ evs ->
        length (Plot.added evs) = length segments).
Proof.
  intros segments evs.
  apply (boxes_follow_the_segments PlotScenario.answering PlotScenario.first_page
           segments [] evs).
  reflexivity.
Defined.

Lemma figure_is_shown_only_for_complete_segments_witness :
  let segments := [PlotScenario.heading; PlotScenario.paragraph; PlotScenario.figures] in
  let evs := snd (Plot.plot_pdf_with_boxes PlotScenario.answering
                    PlotScenario.first_page segments []) in
  (forall x, Plot.mkStep Plot.PltShow x ∈ evs ->
     Forall Plot.complete segments
     /\ Plot.mkStep (Plot.Legend (Plot.legend_of segments) "upper right") None ∈ evs)
  /\ (forall a,
        fst (Plot.plot_pdf_with_boxes PlotScenario.answering
               PlotScenario.first_page segments []) = Ok a ->
        Plot.mkStep Plot.PltShow None ∈ evs /\ Plot.none_raised evs).
Proof.
  intros segments evs.
  apply (figure_is_shown_only_for_complete_segments PlotScenario.answering
           PlotScenario.first_page segments [] evs).
  reflexivity.
Defined.

Lemma render_page_prints_the_text_of_that_page_witness :
  let run := Plot.render_page PlotScenario.answering "report.pdf"
               PlotScenario.report 1 true [] in
  (exists n, Plot.printed (snd run)
             = take n (map Plot.shown_text (Plot.on_page 1 PlotScenario.report)))
  /\ (true = false -> Plot.printed (snd run) = [])
  /\ (Plot.printed (snd run) <> [] -> Plot.mkStep Plot.PltShow None ∈ snd run)
  /\ (forall a, fst run = Ok a -> true = true ->
        Plot.printed (snd run)
        = map Plot.shown_text (Plot.on_page 1 PlotScenario.report)).
Proof.
  intros run.
  apply (render_page_prints_the_text_of_that_page PlotScenario.answering "report.pdf"
           PlotScenario.report 1 true [] (snd run)).
  reflexivity.
Defined.

Lemma render_page_draws_that_page_only_witness :
  let evs := snd (Plot.render_page PlotScenario.answering "report.pdf"
                    PlotScenario.report 2 false []) in
  Forall2 Plot.drawn_as
    (take (length (Plot.added evs))
          (map Plot.element_metadata (Plot.on_page 2 PlotScenario.report)))
    (Plot.added evs)
  /\ (forall handles loc x p,
        Plot.mkStep (Plot.Legend handles loc) x ∈ evs -> p ∈ handles ->
        Plot.label p = "Text"
        \/ exists doc, doc ∈ PlotScenario.report
                       /\ Plot.seg_page_number (Plot.element_metadata doc) = Some 2
                       /\ Plot.seg_category (Plot.element_metadata doc) = Some (Plot.label p))
  /\ (forall s, s ∈ evs -> Plot.phase (Plot.the_call s) = 0%nat ->
        Plot.the_call s = Plot.FitzOpen "report.pdf"
        \/ Plot.the_call s = Plot.LoadPage "report.pdf" (2 - 1)).
Proof.
  intros evs.
  apply (render_page_draws_that_page_only PlotScenario.answering "report.pdf"
           PlotScenario.report 2 false [] evs).
  reflexivity.
Defined.
